(** * A shallow embedding of the backtester's simulation core

    The development follows the Python sources under [backtester/]:
    [transactioncost.py], [transaction.py], [roundtrip.py], [exitrule.py],
    [positionsizer.py], [portfolio.py], [condition.py], [entryrule.py],
    [strategy.py] and [backtester.py].

    Conventions of the embedding.
    - Python [float] values (cash, prices, share counts, percentages) are
      idealised as exact rationals [Q]; comparisons are the boolean tests on
      [Q], and [x / 0] is written out as [ZeroDivisionError] where the source
      can reach it.  Rounding error, infinities and NaN are outside the model.
    - [datetime.date] is a day ordinal in [Z]; [(a - b).days] is [a - b].
    - [str(uuid4())] is a supply of fresh identifiers: the k-th call returns
      the natural number k.
    - A Python [dict] whose iteration order matters ([open_roundtrips]) is an
      association list in insertion order; a [dict] used only for lookups
      ([_peak_prices], the day's prices) is a [gmap].
    - Mutable objects shared by reference (a [TrailingStopExit] instance with
      its [_peak_prices]) live in a store indexed by object reference.
    - Methods that mutate [self] or may raise are written in a state and
      exception monad; a raise returns the state reached so far.
    - A round trip is stored by value in [open_roundtrips] or in
      [closed_roundtrips]; mutating the object a dictionary entry refers to
      is an update of that entry, and the object returned by [open_position]
      is its value at the time of the return.
    - A parsed configuration is a value of [pyval]; loading one returns the
      object, the exception Python raises, or [Unmodelled] where Python
      builds an object that the typed objects here cannot hold. *)

From Stdlib Require Import QArith Qabs Lqa ZArith Lia.
From stdpp Require Import gmap strings list sorting.

Local Open Scope Q_scope.

(** ** Numbers *)

Definition Qltb (x y : Q) : bool := negb (Qle_bool y x).
Definition Qgtb (x y : Q) : bool := Qltb y x.
Definition Qgeb (x y : Q) : bool := Qle_bool y x.

(** [min(a, b)] of Python: [b] when [b < a], otherwise [a]. *)
Definition py_min (a b : Q) : Q := if Qltb b a then b else a.

(** [float(int(x))]: truncation towards zero. *)
Definition py_trunc (x : Q) : Q := inject_Z (Z.quot (Qnum x) (Zpos (Qden x))).

(** [sum(...)] of Python: left to right, starting from 0. *)
Definition py_sum (l : list Q) : Q := fold_left Qplus l 0.

(** ** Exceptions and results *)

Inductive exn : Type :=
| ValueError (msg : string)
| ZeroDivisionError
| KeyError.

Inductive result (A : Type) : Type :=
| Ok (a : A)
| Raise (e : exn).
Arguments Ok {A} a.
Arguments Raise {A} e.

(** ** transactioncost.py *)

Record TransactionCost : Type := mkTransactionCost {
  commission : Q;
  slippage_pct : Q
}.

Definition calculate_entry_cost (self : TransactionCost) (shares price : Q)
  : result Q :=
  if Qle_bool shares 0 then Raise (ValueError "Shares must be positive")
  else if Qle_bool price 0 then Raise (ValueError "Price must be positive")
  else
    let base_cost := shares * price in
    let slippage_cost := base_cost * slippage_pct self in
    let total := base_cost + slippage_cost + commission self in
    Ok total.

Definition calculate_exit_value (self : TransactionCost) (shares price : Q)
  : result Q :=
  if Qle_bool shares 0 then Raise (ValueError "Shares must be positive")
  else if Qle_bool price 0 then Raise (ValueError "Price must be positive")
  else
    let gross_proceeds := shares * price in
    let slippage_cost := gross_proceeds * slippage_pct self in
    let net_proceeds := gross_proceeds - slippage_cost - commission self in
    Ok net_proceeds.

(** ** transaction.py *)

Record Transaction : Type := mkTransaction {
  txn_id : nat;
  roundtrip_id : nat;
  txn_ticker : string;
  txn_date : Z;
  transaction_type : string;
  shares : Q;
  price : Q;
  net_amount : Q;
  reason : string
}.

(** ** exitrule.py: the rule objects

    A [TrailingStopExit] carries the reference of its own [_peak_prices]
    dictionary; two occurrences with the same reference are the same Python
    object. *)

#[warnings="-register-all"]
Inductive ExitRule : Type :=
| TimeBasedExit (holding_days : Z)
| StopLossExit (stop_pct : Q)
| TrailingStopExit (self_ref : nat) (trailing_pct : Q)
| ProfitTargetExit (target_pct : Q) (exit_portion : Q)
| CompositeExitRule (rules : list (ExitRule * Q)).

(** The signal metadata dictionary; the only key the engine reads back is the
    optional per-signal ['exit_rule']. *)
Record Metadata : Type := mkMetadata {
  md_exit_rule : option ExitRule
}.

Definition empty_metadata : Metadata := {| md_exit_rule := None |}.

(** ** roundtrip.py *)

Record RoundTrip : Type := mkRoundTrip {
  rt_id : nat;
  rt_ticker : string;
  transactions : list Transaction;
  exit_rule : ExitRule;
  entry_signal_metadata : Metadata;
  _total_cost : Q;
  _total_proceeds : Q
}.

(** [txn.transaction_type in ["open", "add"]] *)
Definition is_entry (t : Transaction) : bool :=
  existsb (String.eqb (transaction_type t)) ["open"; "add"]%string.

(** [t.transaction_type in ["reduce", "close"]] *)
Definition is_exit (t : Transaction) : bool :=
  existsb (String.eqb (transaction_type t)) ["reduce"; "close"]%string.

Definition add_transaction (self : RoundTrip) (txn : Transaction) : RoundTrip :=
  let txs := transactions self ++ [txn] in
  if is_entry txn then
    {| rt_id := rt_id self; rt_ticker := rt_ticker self; transactions := txs;
       exit_rule := exit_rule self;
       entry_signal_metadata := entry_signal_metadata self;
       _total_cost := _total_cost self + Qabs (net_amount txn);
       _total_proceeds := _total_proceeds self |}
  else
    {| rt_id := rt_id self; rt_ticker := rt_ticker self; transactions := txs;
       exit_rule := exit_rule self;
       entry_signal_metadata := entry_signal_metadata self;
       _total_cost := _total_cost self;
       _total_proceeds := _total_proceeds self + net_amount txn |}.

Definition total_shares (self : RoundTrip) : Q :=
  py_sum (map shares (filter (fun t => is_entry t = true) (transactions self))).

Definition remaining_shares (self : RoundTrip) : Q :=
  let entries :=
    py_sum (map shares (filter (fun t => is_entry t = true) (transactions self))) in
  let exits :=
    py_sum (map shares (filter (fun t => is_exit t = true) (transactions self))) in
  entries - exits.


Definition average_entry_price (self : RoundTrip) : Q :=
  let total_shares := total_shares self in
  if Qeq_bool total_shares 0 then 0
  else _total_cost self / total_shares.

Definition realized_pnl (self : RoundTrip) : Q :=
  _total_proceeds self - _total_cost self.

(** [min(t.date for t in self.transactions)] on a non-empty list. *)
Fixpoint min_date (d : Z) (ts : list Transaction) : Z :=
  match ts with
  | [] => d
  | t :: ts' => min_date (if (txn_date t <? d)%Z then txn_date t else d) ts'
  end.

Definition get_holding_days (self : RoundTrip) (current_date : Z) : Z :=
  match transactions self with
  | [] => 0%Z
  | t :: ts =>
      let first_date := min_date (txn_date t) ts in
      (current_date - first_date)%Z
  end.

(** ** Python dictionaries in insertion order *)

Section Dict.
Context {V : Type}.

Fixpoint dict_get (k : nat) (d : list (nat * V)) : option V :=
  match d with
  | [] => None
  | (k', v) :: d' => if Nat.eqb k k' then Some v else dict_get k d'
  end.

(** [d[k] = v]: an existing key keeps its place, a new key goes last. *)
Fixpoint dict_set (k : nat) (v : V) (d : list (nat * V)) : list (nat * V) :=
  match d with
  | [] => [(k, v)]
  | (k', v') :: d' =>
      if Nat.eqb k k' then (k, v) :: d' else (k', v') :: dict_set k v d'
  end.

(** [del d[k]] for a key that is present. *)
Fixpoint dict_del (k : nat) (d : list (nat * V)) : list (nat * V) :=
  match d with
  | [] => []
  | (k', v') :: d' =>
      if Nat.eqb k k' then d' else (k', v') :: dict_del k d'
  end.

Definition dict_keys (d : list (nat * V)) : list nat := map fst d.
Definition dict_values (d : list (nat * V)) : list V := map snd d.
End Dict.

(** ** portfolio.py: the ledger object *)

Record Portfolio : Type := mkPortfolio {
  starting_capital : Q;
  cash : Q;
  max_positions : Z;
  transaction_cost : TransactionCost;
  fractional_shares : bool;
  open_roundtrips : list (nat * RoundTrip);
  closed_roundtrips : list RoundTrip;
  transaction_log : list Transaction;
  equity_history : list (Z * Q)
}.

(** [Portfolio.__init__] *)
Definition Portfolio_init (starting_capital : Q) (max_positions : Z)
    (transaction_cost : TransactionCost) (fractional_shares : bool)
  : Portfolio :=
  {| starting_capital := starting_capital;
     cash := starting_capital;
     max_positions := max_positions;
     transaction_cost := transaction_cost;
     fractional_shares := fractional_shares;
     open_roundtrips := [];
     closed_roundtrips := [];
     transaction_log := [];
     equity_history := [] |}.

(** ** The program state

    The portfolio object, the identifier supply behind [uuid4], and the store
    of the [_peak_prices] dictionaries of the [TrailingStopExit] objects. *)

Record World : Type := mkWorld {
  portfolio : Portfolio;
  uuid_next : nat;
  peak_store : gmap nat (gmap nat Q)
}.

Definition M (A : Type) : Type := World -> World * result A.

Definition ret {A} (a : A) : M A := fun w => (w, Ok a).

Definition raise {A} (e : exn) : M A := fun w => (w, Raise e).

Definition bind {A B} (m : M A) (k : A -> M B) : M B :=
  fun w =>
    match m w with
    | (w', Ok a) => k a w'
    | (w', Raise e) => (w', Raise e)
    end.

Notation "'let*' x ':=' m 'in' k" := (bind m (fun x => k))
  (at level 10, x name, m at level 100, k at level 200).
Notation "m1 '>>' m2" := (bind m1 (fun _ => m2))
  (at level 100, m2 at level 200, right associativity).

(** Reading [self] and calling a function that may raise. *)
Definition get_self : M Portfolio := fun w => (w, Ok (portfolio w)).

Definition lift {A} (r : result A) : M A := fun w => (w, r).

Definition update_self (f : Portfolio -> Portfolio) : M unit :=
  fun w =>
    ({| portfolio := f (portfolio w); uuid_next := uuid_next w;
        peak_store := peak_store w |}, Ok tt).

(** [str(uuid4())] *)
Definition uuid4 : M nat :=
  fun w =>
    ({| portfolio := portfolio w; uuid_next := S (uuid_next w);
        peak_store := peak_store w |}, Ok (uuid_next w)).

(** Field assignments of the portfolio object. *)
Definition with_cash (c : Q) (p : Portfolio) : Portfolio :=
  {| starting_capital := starting_capital p; cash := c;
     max_positions := max_positions p; transaction_cost := transaction_cost p;
     fractional_shares := fractional_shares p;
     open_roundtrips := open_roundtrips p;
     closed_roundtrips := closed_roundtrips p;
     transaction_log := transaction_log p;
     equity_history := equity_history p |}.

Definition with_open (o : list (nat * RoundTrip)) (p : Portfolio) : Portfolio :=
  {| starting_capital := starting_capital p; cash := cash p;
     max_positions := max_positions p; transaction_cost := transaction_cost p;
     fractional_shares := fractional_shares p;
     open_roundtrips := o;
     closed_roundtrips := closed_roundtrips p;
     transaction_log := transaction_log p;
     equity_history := equity_history p |}.

Definition with_closed (c : list RoundTrip) (p : Portfolio) : Portfolio :=
  {| starting_capital := starting_capital p; cash := cash p;
     max_positions := max_positions p; transaction_cost := transaction_cost p;
     fractional_shares := fractional_shares p;
     open_roundtrips := open_roundtrips p;
     closed_roundtrips := c;
     transaction_log := transaction_log p;
     equity_history := equity_history p |}.

Definition with_log (l : list Transaction) (p : Portfolio) : Portfolio :=
  {| starting_capital := starting_capital p; cash := cash p;
     max_positions := max_positions p; transaction_cost := transaction_cost p;
     fractional_shares := fractional_shares p;
     open_roundtrips := open_roundtrips p;
     closed_roundtrips := closed_roundtrips p;
     transaction_log := l;
     equity_history := equity_history p |}.

Definition with_equity (e : list (Z * Q)) (p : Portfolio) : Portfolio :=
  {| starting_capital := starting_capital p; cash := cash p;
     max_positions := max_positions p; transaction_cost := transaction_cost p;
     fractional_shares := fractional_shares p;
     open_roundtrips := open_roundtrips p;
     closed_roundtrips := closed_roundtrips p;
     transaction_log := transaction_log p;
     equity_history := e |}.

(** ** portfolio.py: the methods *)

Definition can_open_position (self : Portfolio) : bool :=
  (Z.of_nat (length (open_roundtrips self)) <? max_positions self)%Z.

Definition _round_shares (self : Portfolio) (shares : Q) : Q :=
  if fractional_shares self then shares else py_trunc shares.

Definition record_equity (date : Z) (value : Q) : M unit :=
  update_self (fun p => with_equity (equity_history p ++ [(date, value)]) p).

Definition open_position (ticker : string) (date : Z) (price shares : Q)
    (exit_rule : ExitRule) (signal_metadata : option Metadata)
  : M (option RoundTrip) :=
  let* self := get_self in
  let shares := _round_shares self shares in
  if Qle_bool shares 0 then ret None
  else if negb (can_open_position self) then ret None
  else
    let* entry_cost :=
      lift (calculate_entry_cost (transaction_cost self) shares price) in
    if Qgtb entry_cost (cash self) then ret None
    else
      let* roundtrip_id := uuid4 in
      let* tid := uuid4 in
      let transaction :=
        {| txn_id := tid; roundtrip_id := roundtrip_id; txn_ticker := ticker;
           txn_date := date; transaction_type := "open"; shares := shares;
           price := price; net_amount := - entry_cost; reason := "signal" |} in
      let roundtrip :=
        add_transaction
          {| rt_id := roundtrip_id; rt_ticker := ticker; transactions := [];
             exit_rule := exit_rule;
             entry_signal_metadata :=
               match signal_metadata with
               | Some m => m
               | None => empty_metadata
               end;
             _total_cost := 0; _total_proceeds := 0 |}
          transaction in
      update_self (fun p => with_cash (cash p - entry_cost) p) >>
      update_self (fun p =>
        with_open (dict_set roundtrip_id roundtrip (open_roundtrips p)) p) >>
      update_self (fun p => with_log (transaction_log p ++ [transaction]) p) >>
      ret (Some roundtrip).

Definition add_to_position (roundtrip_id : nat) (date : Z) (price shares : Q)
    (reason : string) : M bool :=
  let* self := get_self in
  match dict_get roundtrip_id (open_roundtrips self) with
  | None => raise (ValueError "RoundTrip not found")
  | Some roundtrip =>
      let shares := _round_shares self shares in
      if Qle_bool shares 0 then ret false
      else
        let* add_cost :=
          lift (calculate_entry_cost (transaction_cost self) shares price) in
        if Qgtb add_cost (cash self) then ret false
        else
          let* tid := uuid4 in
          let transaction :=
            {| txn_id := tid; roundtrip_id := roundtrip_id;
               txn_ticker := rt_ticker roundtrip; txn_date := date;
               transaction_type := "add"; shares := shares; price := price;
               net_amount := - add_cost; reason := reason |} in
          update_self (fun p =>
            with_open (dict_set roundtrip_id
                         (add_transaction roundtrip transaction)
                         (open_roundtrips p)) p) >>
          update_self (fun p => with_cash (cash p - add_cost) p) >>
          update_self (fun p => with_log (transaction_log p ++ [transaction]) p) >>
          ret true
  end.

Definition reduce_position (roundtrip_id : nat) (date : Z) (price shares : Q)
    (reason : string) : M Q :=
  let* self := get_self in
  match dict_get roundtrip_id (open_roundtrips self) with
  | None => raise (ValueError "RoundTrip not found")
  | Some roundtrip =>
      if Qgtb shares (remaining_shares roundtrip) then
        raise (ValueError "Cannot exit more shares than available")
      else
        let* exit_value :=
          lift (calculate_exit_value (transaction_cost self) shares price) in
        let* tid := uuid4 in
        let transaction :=
          {| txn_id := tid; roundtrip_id := roundtrip_id;
             txn_ticker := rt_ticker roundtrip; txn_date := date;
             transaction_type := "reduce"; shares := shares; price := price;
             net_amount := exit_value; reason := reason |} in
        let cost_of_shares_sold := average_entry_price roundtrip * shares in
        let realized_pnl := exit_value - cost_of_shares_sold in
        let roundtrip := add_transaction roundtrip transaction in
        update_self (fun p =>
          with_open (dict_set roundtrip_id roundtrip (open_roundtrips p)) p) >>
        update_self (fun p => with_cash (cash p + exit_value) p) >>
        update_self (fun p => with_log (transaction_log p ++ [transaction]) p) >>
        (if Qeq_bool (remaining_shares roundtrip) 0 then
           update_self (fun p =>
             with_closed (closed_roundtrips p ++ [roundtrip]) p) >>
           update_self (fun p =>
             with_open (dict_del roundtrip_id (open_roundtrips p)) p)
         else ret tt) >>
        ret realized_pnl
  end.

Definition close_position (roundtrip_id : nat) (date : Z) (price : Q)
    (reason : string) : M Q :=
  let* self := get_self in
  match dict_get roundtrip_id (open_roundtrips self) with
  | None => raise (ValueError "RoundTrip not found")
  | Some roundtrip =>
      reduce_position roundtrip_id date price (remaining_shares roundtrip) reason
  end.


(** ** exitrule.py: constructors and [should_exit] *)

Definition TimeBasedExit_init (holding_days : Z) : result ExitRule :=
  if (holding_days <=? 0)%Z then Raise (ValueError "holding_days must be positive")
  else Ok (TimeBasedExit holding_days).

Definition StopLossExit_init (stop_pct : Q) : result ExitRule :=
  if Qle_bool stop_pct 0 then Raise (ValueError "stop_pct must be positive")
  else Ok (StopLossExit stop_pct).

(** The constructor allocates the object's [_peak_prices = {}]. *)
Definition TrailingStopExit_init (trailing_pct : Q) : M ExitRule :=
  if Qle_bool trailing_pct 0 then
    raise (ValueError "trailing_pct must be positive")
  else
    fun w =>
      let ref := fresh (dom (peak_store w)) in
      ({| portfolio := portfolio w; uuid_next := uuid_next w;
          peak_store := <[ref := ∅]> (peak_store w) |},
       Ok (TrailingStopExit ref trailing_pct)).

Definition ProfitTargetExit_init (target_pct exit_portion : Q)
  : result ExitRule :=
  if Qle_bool target_pct 0 then Raise (ValueError "target_pct must be positive")
  else if negb (Qltb 0 exit_portion && Qle_bool exit_portion 1) then
    Raise (ValueError "exit_portion must be in (0, 1]")
  else Ok (ProfitTargetExit target_pct exit_portion).

Definition CompositeExitRule_init (rules : list (ExitRule * Q))
  : result ExitRule :=
  match rules with
  | [] => Raise (ValueError "CompositeExitRule requires at least one rule")
  | _ :: _ => Ok (CompositeExitRule rules)
  end.

(** The value every rule returns when it does not fire. *)
Definition no_exit : bool * Q * string := (false, 0, ""%string).

(** [TrailingStopExit.should_exit] on the object's own dictionary. *)
Definition trailing_should_exit (trailing_pct : Q) (roundtrip : RoundTrip)
    (price : Q) (_peak_prices : gmap nat Q)
  : gmap nat Q * (bool * Q * string) :=
  let peaks1 :=
    match _peak_prices !! rt_id roundtrip with
    | None => <[rt_id roundtrip := average_entry_price roundtrip]> _peak_prices
    | Some _ => _peak_prices
    end in
  let stored := default 0 (peaks1 !! rt_id roundtrip) in
  let peaks2 :=
    if Qgtb price stored then <[rt_id roundtrip := price]> peaks1 else peaks1 in
  let peak := default 0 (peaks2 !! rt_id roundtrip) in
  if Qle_bool peak 0 then (peaks2, no_exit)
  else
    let drawdown := (peak - price) / peak in
    if Qgeb drawdown trailing_pct then (peaks2, (true, 1, "trailing_stop"%string))
    else (peaks2, no_exit).

Fixpoint should_exit (self : ExitRule) (roundtrip : RoundTrip) (date : Z)
    (price : Q) (store : gmap nat (gmap nat Q))
  : gmap nat (gmap nat Q) * (bool * Q * string) :=
  match self with
  | TimeBasedExit holding_days =>
      if (get_holding_days roundtrip date >=? holding_days)%Z
      then (store, (true, 1, "time_exit"%string))
      else (store, no_exit)
  | StopLossExit stop_pct =>
      let avg_entry := average_entry_price roundtrip in
      if Qle_bool avg_entry 0 then (store, no_exit)
      else
        let pnl_pct := (price - avg_entry) / avg_entry in
        if Qle_bool pnl_pct (- stop_pct)
        then (store, (true, 1, "stop_loss"%string))
        else (store, no_exit)
  | TrailingStopExit self_ref trailing_pct =>
      let '(peaks, r) :=
        trailing_should_exit trailing_pct roundtrip price
          (default ∅ (store !! self_ref)) in
      (<[self_ref := peaks]> store, r)
  | ProfitTargetExit target_pct exit_portion =>
      let avg_entry := average_entry_price roundtrip in
      if Qle_bool avg_entry 0 then (store, no_exit)
      else
        let pnl_pct := (price - avg_entry) / avg_entry in
        if Qgeb pnl_pct target_pct
        then (store, (true, exit_portion, "profit_target"%string))
        else (store, no_exit)
  | CompositeExitRule rules =>
      (fix loop (rules : list (ExitRule * Q)) (store : gmap nat (gmap nat Q))
         : gmap nat (gmap nat Q) * (bool * Q * string) :=
         match rules with
         | [] => (store, no_exit)
         | (rule, portion) :: rest =>
             let '(store', (fires, _, reason)) :=
               should_exit rule roundtrip date price store in
             if fires then (store', (true, portion, reason))
             else loop rest store'
         end) rules store
  end.

(** The loop of [CompositeExitRule.should_exit], named. *)
Fixpoint composite_loop (rules : list (ExitRule * Q)) (roundtrip : RoundTrip)
    (date : Z) (price : Q) (store : gmap nat (gmap nat Q))
  : gmap nat (gmap nat Q) * (bool * Q * string) :=
  match rules with
  | [] => (store, no_exit)
  | (rule, portion) :: rest =>
      let '(store', (fires, _, reason)) :=
        should_exit rule roundtrip date price store in
      if fires then (store', (true, portion, reason))
      else composite_loop rest roundtrip date price store'
  end.

(** [should_exit] as a method call in the monad. *)
Definition call_should_exit (rule : ExitRule) (roundtrip : RoundTrip)
    (date : Z) (price : Q) : M (bool * Q * string) :=
  fun w =>
    let '(store', r) := should_exit rule roundtrip date price (peak_store w) in
    ({| portfolio := portfolio w; uuid_next := uuid_next w;
        peak_store := store' |}, Ok r).

(** ** positionsizer.py *)

Inductive PositionSizer : Type :=
| FixedDollarAmount (dollar_amount : Q)
| PercentPortfolio (percent : Q)
| PercentAvailableCash (percent : Q)
| EqualWeight (default_max_positions : Z)
| FixedShares (fixed_shares : Q)
| RiskParity (base_dollar_amount target_volatility max_adjustment : Q).

Definition FixedDollarAmount_init (dollar_amount : Q) : result PositionSizer :=
  if Qle_bool dollar_amount 0 then
    Raise (ValueError "dollar_amount must be positive")
  else Ok (FixedDollarAmount dollar_amount).

Definition PercentPortfolio_init (percent : Q) : result PositionSizer :=
  if negb (Qltb 0 percent && Qle_bool percent 1) then
    Raise (ValueError "percent must be between 0 and 1.0")
  else Ok (PercentPortfolio percent).

Definition PercentAvailableCash_init (percent : Q) : result PositionSizer :=
  if negb (Qltb 0 percent && Qle_bool percent 1) then
    Raise (ValueError "percent must be between 0 and 1.0")
  else Ok (PercentAvailableCash percent).

Definition EqualWeight_init (default_max_positions : Z) : result PositionSizer :=
  if (default_max_positions <=? 0)%Z then
    Raise (ValueError "default_max_positions must be positive")
  else Ok (EqualWeight default_max_positions).

Definition FixedShares_init (shares : Q) : result PositionSizer :=
  if Qle_bool shares 0 then Raise (ValueError "shares must be positive")
  else Ok (FixedShares shares).

Definition RiskParity_init (base_dollar_amount target_volatility max_adjustment : Q)
  : result PositionSizer :=
  if Qle_bool base_dollar_amount 0 then
    Raise (ValueError "base_dollar_amount must be positive")
  else if Qle_bool target_volatility 0 then
    Raise (ValueError "target_volatility must be positive")
  else if Qltb max_adjustment 1 then
    Raise (ValueError "max_adjustment must be >= 1.0")
  else Ok (RiskParity base_dollar_amount target_volatility max_adjustment).

(** A sizer object that its constructor accepts. *)
Definition sizer_constructed (s : PositionSizer) : Prop :=
  match s with
  | FixedDollarAmount a => FixedDollarAmount_init a = Ok s
  | PercentPortfolio p => PercentPortfolio_init p = Ok s
  | PercentAvailableCash p => PercentAvailableCash_init p = Ok s
  | EqualWeight n => EqualWeight_init n = Ok s
  | FixedShares n => FixedShares_init n = Ok s
  | RiskParity b t m => RiskParity_init b t m = Ok s
  end.

Definition calculate_shares (self : PositionSizer) (price available_cash
    portfolio_value : Q) (portfolio : option Portfolio) (ticker : option string)
  : result Q :=
  if Qle_bool price 0 then Raise (ValueError "price must be positive")
  else
    match self with
    | FixedDollarAmount dollar_amount =>
        let target_amount := py_min dollar_amount available_cash in
        if Qle_bool target_amount 0 then Ok 0
        else Ok (target_amount / price)
    | PercentPortfolio percent =>
        let target_amount := portfolio_value * percent in
        let actual_amount := py_min target_amount available_cash in
        if Qle_bool actual_amount 0 then Ok 0
        else Ok (actual_amount / price)
    | PercentAvailableCash percent =>
        let target_amount := available_cash * percent in
        if Qle_bool target_amount 0 then Ok 0
        else Ok (target_amount / price)
    | EqualWeight default_max_positions =>
        let max_positions :=
          match portfolio with
          | Some p => max_positions p
          | None => default_max_positions
          end in
        if (max_positions =? 0)%Z then Raise ZeroDivisionError
        else
          let allocation := available_cash / inject_Z max_positions in
          if Qle_bool allocation 0 then Ok 0
          else Ok (allocation / price)
    | FixedShares fixed_shares =>
        let required_cash := fixed_shares * price in
        if Qgtb required_cash available_cash then Ok 0
        else Ok fixed_shares
    | RiskParity base_dollar_amount _ _ =>
        let target_amount := base_dollar_amount in
        let actual_amount := py_min target_amount available_cash in
        if Qle_bool actual_amount 0 then Ok 0
        else Ok (actual_amount / price)
    end.

(** ** entryrule.py

    A [Calculation] reads the market-data collaborator, which is outside the
    engine; its [calculate] method is taken as a function of the ticker, the
    date and the portfolio passed along.  A [Condition] is its [check]. *)

Definition Calculation : Type := string -> Z -> option Portfolio -> option Q.
Definition Condition : Type := Q -> bool.

Record Signal : Type := mkSignal {
  sig_ticker : string;
  sig_date : Z;
  signal_type : string;
  metadata : Metadata;
  priority : Q
}.

Inductive EntryRuleObj : Type :=
| EntryRule (calculation : Calculation) (condition : Condition)
    (signal_type : string) (priority : Q)
| CompositeEntryRule (pairs : list (Calculation * Condition))
    (signal_type : string) (priority : Q).

(** The loop of [CompositeEntryRule.should_enter]: all pairs must pass. *)
Fixpoint all_pairs_pass (pairs : list (Calculation * Condition))
    (ticker : string) (date : Z) (portfolio : option Portfolio) : bool :=
  match pairs with
  | [] => true
  | (calc, cond) :: rest =>
      match calc ticker date portfolio with
      | None => false
      | Some value =>
          if negb (cond value) then false
          else all_pairs_pass rest ticker date portfolio
      end
  end.

Definition should_enter (self : EntryRuleObj) (ticker : string) (date : Z)
    (portfolio : option Portfolio) : option Signal :=
  match self with
  | EntryRule calculation condition signal_type priority =>
      match calculation ticker date portfolio with
      | Some value =>
          if condition value then
            Some {| sig_ticker := ticker; sig_date := date;
                    signal_type := signal_type; metadata := empty_metadata;
                    priority := priority |}
          else None
      | None => None
      end
  | CompositeEntryRule pairs signal_type priority =>
      if all_pairs_pass pairs ticker date portfolio then
        Some {| sig_ticker := ticker; sig_date := date;
                signal_type := signal_type; metadata := empty_metadata;
                priority := priority |}
      else None
  end.

(** ** strategy.py *)

Record Strategy : Type := mkStrategy {
  name : string;
  entry_rules : list EntryRuleObj;
  exit_rules : ExitRule;
  position_sizer : PositionSizer;
  universe : list string
}.

(** [list.sort(key=lambda s: s.priority, reverse=True)].  The sort of Python
    lists is stable, with [reverse=True] as well: elements whose keys compare
    equal keep their order.  It is taken here as the insertion sort that puts
    an element behind every element whose key is not smaller. *)
Fixpoint insert_desc (s : Signal) (sorted : list Signal) : list Signal :=
  match sorted with
  | [] => [s]
  | x :: rest =>
      if Qltb (priority x) (priority s) then s :: x :: rest
      else x :: insert_desc s rest
  end.

Definition sort_by_priority_desc (signals : list Signal) : list Signal :=
  fold_left (fun sorted s => insert_desc s sorted) signals [].

(** The two nested loops that fill [signals]. *)
Definition collect_signals (self : Strategy) (current_date : Z)
    (portfolio : option Portfolio) : list Signal :=
  fold_left
    (fun signals ticker =>
       fold_left
         (fun signals rule =>
            match should_enter rule ticker current_date portfolio with
            | Some signal => signals ++ [signal]
            | None => signals
            end)
         (entry_rules self) signals)
    (universe self) [].

Definition generate_signals (self : Strategy) (current_date : Z)
    (portfolio : option Portfolio) : list Signal :=
  let signals := collect_signals self current_date portfolio in
  sort_by_priority_desc signals.

(** ** backtester.py *)

(** [price_data]: the row of a date, when the date is in the index, gives for
    a column its value when the column exists and the value is not NaN. *)
Record Backtester : Type := mkBacktester {
  strategy : Strategy;
  price_data : Z -> option (string -> option Q)
}.

Definition _get_current_prices (self : Backtester) (current_date : Z)
  : M (gmap string Q) :=
  match price_data self current_date with
  | None => ret ∅
  | Some day_prices =>
      let from_universe :=
        fold_left
          (fun current_prices ticker =>
             match day_prices ticker with
             | Some price =>
                 if Qgtb price 0 then <[ticker := price]> current_prices
                 else current_prices
             | None => current_prices
             end)
          (universe (strategy self)) (∅ : gmap string Q) in
      let* p := get_self in
      ret (fold_left
             (fun current_prices roundtrip =>
                let ticker := rt_ticker roundtrip in
                match current_prices !! ticker, day_prices ticker with
                | None, Some price =>
                    if Qgtb price 0 then <[ticker := price]> current_prices
                    else current_prices
                | _, _ => current_prices
                end)
             (dict_values (open_roundtrips p)) from_universe)
  end.

Definition _calculate_portfolio_value (current_date : Z)
    (current_prices : gmap string Q) : M Q :=
  let* p := get_self in
  ret (fold_left
         (fun total_value roundtrip =>
            match current_prices !! rt_ticker roundtrip with
            | Some price => total_value + remaining_shares roundtrip * price
            | None => total_value
            end)
         (dict_values (open_roundtrips p)) (cash p)).

(** First loop of [_process_exits]: ask every open position's rule. *)
Fixpoint collect_exits (items : list (nat * RoundTrip)) (current_date : Z)
    (current_prices : gmap string Q)
    (positions_to_exit : list (nat * Q * Q * string))
  : M (list (nat * Q * Q * string)) :=
  match items with
  | [] => ret positions_to_exit
  | (rt_id, roundtrip) :: rest =>
      match current_prices !! rt_ticker roundtrip with
      | None => collect_exits rest current_date current_prices positions_to_exit
      | Some current_price =>
          let* r :=
            call_should_exit (exit_rule roundtrip) roundtrip current_date
              current_price in
          let '(fires, exit_portion, reason) := r in
          if fires then
            collect_exits rest current_date current_prices
              (positions_to_exit ++ [(rt_id, exit_portion, current_price, reason)])
          else
            collect_exits rest current_date current_prices positions_to_exit
      end
  end.

(** Second loop of [_process_exits]: execute the collected exits. *)
Fixpoint execute_exits (positions_to_exit : list (nat * Q * Q * string))
    (current_date : Z) : M unit :=
  match positions_to_exit with
  | [] => ret tt
  | (rt_id, portion, price, reason) :: rest =>
      let* p := get_self in
      match dict_get rt_id (open_roundtrips p) with
      | None => raise KeyError
      | Some roundtrip =>
          let shares_to_exit := remaining_shares roundtrip * portion in
          (if Qgeb portion (9999 # 10000) then
             close_position rt_id current_date price reason
           else
             reduce_position rt_id current_date price shares_to_exit reason) >>
          execute_exits rest current_date
      end
  end.

Definition _process_exits (self : Backtester) (current_date : Z)
    (current_prices : gmap string Q) : M unit :=
  let* p := get_self in
  let* positions_to_exit :=
    collect_exits (open_roundtrips p) current_date current_prices [] in
  execute_exits positions_to_exit current_date.

(** The loop of [_process_entries] over the signals that have a price. *)
Fixpoint entries_loop (self : Backtester) (current_date : Z)
    (current_prices : gmap string Q) (valid_signals : list Signal) : M unit :=
  match valid_signals with
  | [] => ret tt
  | signal :: rest =>
      let* p := get_self in
      if negb (can_open_position p) then ret tt
      else
        let ticker := sig_ticker signal in
        match current_prices !! ticker with
        | None => raise KeyError
        | Some current_price =>
            let* portfolio_value :=
              _calculate_portfolio_value current_date current_prices in
            let* p := get_self in
            let* shares :=
              lift (calculate_shares (position_sizer (strategy self))
                      current_price (cash p) portfolio_value (Some p)
                      (Some ticker)) in
            if Qle_bool shares 0 then
              entries_loop self current_date current_prices rest
            else
              let exit_rule :=
                match md_exit_rule (metadata signal) with
                | Some r => r
                | None => exit_rules (strategy self)
                end in
              let* roundtrip :=
                open_position ticker current_date current_price shares
                  exit_rule (Some (metadata signal)) in
              entries_loop self current_date current_prices rest
        end
  end.

Definition _process_entries (self : Backtester) (current_date : Z)
    (current_prices : gmap string Q) (signals : list Signal) : M unit :=
  let valid_signals :=
    List.filter
      (fun s => match current_prices !! sig_ticker s with
                | Some _ => true
                | None => false
                end) signals in
  entries_loop self current_date current_prices valid_signals.

Definition _process_day (self : Backtester) (current_date : Z) : M unit :=
  let* current_prices := _get_current_prices self current_date in
  _process_exits self current_date current_prices >>
  let* p := get_self in
  let signals := generate_signals (strategy self) current_date (Some p) in
  _process_entries self current_date current_prices signals >>
  let* portfolio_value :=
    _calculate_portfolio_value current_date current_prices in
  record_equity current_date portfolio_value.

(** ** Sequences of ledger calls

    A caller of the ledger issues the four operations one after the other; a
    call returns a value, refuses with its sentinel ([None] or [False]), or
    raises, and the caller goes on with the portfolio as the call left it. *)

Inductive Op : Type :=
| OpOpen (ticker : string) (date : Z) (price shares : Q) (exit_rule : ExitRule)
    (signal_metadata : option Metadata)
| OpAdd (roundtrip_id : nat) (date : Z) (price shares : Q) (reason : string)
| OpReduce (roundtrip_id : nat) (date : Z) (price shares : Q) (reason : string)
| OpClose (roundtrip_id : nat) (date : Z) (price : Q) (reason : string).

Inductive outcome : Type :=
| Succeeded
| Refused
| Raised (e : exn).

Definition call (o : Op) (w : World) : World * outcome :=
  match o with
  | OpOpen ticker date price shares exit_rule md =>
      match open_position ticker date price shares exit_rule md w with
      | (w', Ok (Some _)) => (w', Succeeded)
      | (w', Ok None) => (w', Refused)
      | (w', Raise e) => (w', Raised e)
      end
  | OpAdd id date price shares reason =>
      match add_to_position id date price shares reason w with
      | (w', Ok true) => (w', Succeeded)
      | (w', Ok false) => (w', Refused)
      | (w', Raise e) => (w', Raised e)
      end
  | OpReduce id date price shares reason =>
      match reduce_position id date price shares reason w with
      | (w', Ok _) => (w', Succeeded)
      | (w', Raise e) => (w', Raised e)
      end
  | OpClose id date price reason =>
      match close_position id date price reason w with
      | (w', Ok _) => (w', Succeeded)
      | (w', Raise e) => (w', Raised e)
      end
  end.

Fixpoint run (ops : list Op) (w : World) : World * list outcome :=
  match ops with
  | [] => (w, [])
  | o :: ops' =>
      let '(w1, out) := call o w in
      let '(w2, outs) := run ops' w1 in
      (w2, out :: outs)
  end.


(** The world in which a fresh [Portfolio] has just been constructed. *)
Definition initial_world (starting_capital : Q) (max_positions : Z)
    (transaction_cost : TransactionCost) (fractional_shares : bool) : World :=
  {| portfolio :=
       Portfolio_init starting_capital max_positions transaction_cost
         fractional_shares;
     uuid_next := 0;
     peak_store := ∅ |}.


(** ** The ledger invariant

    What holds of every world that the ledger methods produce: the keys of
    [open_roundtrips] are distinct and name their round trips, the open round
    trips hold shares, the closed ones hold none and are not open, and every
    identifier in use has been handed out by [uuid4]. *)

Record ledger_invariant (w : World) : Prop := mk_ledger_invariant {
  inv_nodup : List.NoDup (dict_keys (open_roundtrips (portfolio w)));
  inv_open : forall id rt,
    In (id, rt) (open_roundtrips (portfolio w)) ->
    rt_id rt = id /\ 0 < remaining_shares rt /\ (id < uuid_next w)%nat;
  inv_closed : forall rt,
    In rt (closed_roundtrips (portfolio w)) ->
    remaining_shares rt == 0 /\ (rt_id rt < uuid_next w)%nat /\
    ~ In (rt_id rt) (dict_keys (open_roundtrips (portfolio w)))
}.


(** The round trips a portfolio manages: the open ones and the closed ones. *)
Definition managed (w : World) (rt : RoundTrip) : Prop :=
  In rt (dict_values (open_roundtrips (portfolio w))) \/
  In rt (closed_roundtrips (portfolio w)).

(** ** What [open_position] is claimed to do

    The refusal condition, the refusal, the successful opening, and the claim
    that the call refuses exactly under the refusal condition and opens
    otherwise. *)

Definition refusal_condition (w : World) (price qty : Q) : Prop :=
  let self := portfolio w in
  let sh := _round_shares self qty in
  sh <= 0 \/
  (max_positions self <= Z.of_nat (length (open_roundtrips self)))%Z \/
  exists c,
    calculate_entry_cost (transaction_cost self) sh price = Ok c /\
    cash self < c.

Definition refused (w : World) (r : World * result (option RoundTrip)) : Prop :=
  r = (w, Ok None).

Definition opened (w : World) (price qty : Q)
    (r : World * result (option RoundTrip)) : Prop :=
  let self := portfolio w in
  let self' := portfolio (fst r) in
  exists c rt t,
    calculate_entry_cost (transaction_cost self) (_round_shares self qty) price
      = Ok c /\
    snd r = Ok (Some rt) /\
    cash self' = cash self - c /\
    transactions rt = [t] /\
    transaction_type t = "open"%string /\
    open_roundtrips self' = open_roundtrips self ++ [(rt_id rt, rt)] /\
    closed_roundtrips self' = closed_roundtrips self /\
    transaction_log self' = transaction_log self ++ [t].

Definition open_position_claim (w : World) (ticker : string) (date : Z)
    (price qty : Q) (er : ExitRule) (md : option Metadata) : Prop :=
  let r := open_position ticker date price qty er md w in
  (refused w r <-> refusal_condition w price qty) /\
  (~ refusal_condition w price qty -> opened w price qty r).

(** ** Evaluating a list of sub-rules without any of them firing

    [all_skip rt d p rules s s']: asked in list order, starting from the
    store [s], every rule of [rules] declines and the store ends as [s']. *)

Inductive all_skip (rt : RoundTrip) (d : Z) (p : Q)
  : list (ExitRule * Q) -> gmap nat (gmap nat Q) -> gmap nat (gmap nat Q) -> Prop :=
| all_skip_nil s : all_skip rt d p [] s s
| all_skip_cons rule portion rest s s1 s2 x reason :
    should_exit rule rt d p s = (s1, (false, x, reason)) ->
    all_skip rt d p rest s1 s2 ->
    all_skip rt d p ((rule, portion) :: rest) s s2.

(** The position of the scenarios: 10 shares bought at $100 on day 0, without
    costs, in a fresh portfolio; [None] if the purchase does not go through. *)
Definition position_at_100 (er : ExitRule) : option RoundTrip :=
  match open_position "A" 0 100 10 er None
          (initial_world 10000 5 (mkTransactionCost 0 0) true) with
  | (_, Ok (Some rt)) => Some rt
  | _ => None
  end.

(** ** Discovery order of signals

    The signals in the order the specification names: ticker by ticker in
    universe order and, for one ticker, rule by rule in the order of the entry
    rules, leaving out the rules that return no signal. *)

Definition discovery_order (self : Strategy) (current_date : Z)
    (portfolio : option Portfolio) : list Signal :=
  flat_map
    (fun ticker =>
       omap (fun rule => should_enter rule ticker current_date portfolio)
         (entry_rules self))
    (universe self).

(** Priority descending: an earlier signal's priority is not smaller. *)
Definition priority_ge (a b : Signal) : Prop := priority b <= priority a.

(** The signals of a list whose priority equals [q], in list order. *)
Definition with_priority (q : Q) (l : list Signal) : list Signal :=
  filter (fun s => Qeq_bool (priority s) q = true) l.

(** ** The log and the identifiers over time *)


(** The flat transaction log of a world. *)
Definition log_of (w : World) : list Transaction :=
  transaction_log (portfolio w).


(** ** Further invariants of the ledger *)

(** [len(self.open_roundtrips) <= self.max_positions] *)
Definition within_capacity (w : World) : Prop :=
  (Z.of_nat (length (open_roundtrips (portfolio w)))
   <= max_positions (portfolio w))%Z.

(** What the ledger writes into a transaction: positive shares and price, and
    either an entry ("open" or "add") whose [net_amount] is minus the entry
    cost, or an exit, always typed "reduce", whose [net_amount] is the exit
    value. *)
Definition logged_by (tc : TransactionCost) (t : Transaction) : Prop :=
  0 < shares t /\ 0 < price t /\
  (((transaction_type t = "open"%string \/ transaction_type t = "add"%string) /\
    exists c,
      calculate_entry_cost tc (shares t) (price t) = Ok c /\
      net_amount t = - c) \/
   (transaction_type t = "reduce"%string /\
    calculate_exit_value tc (shares t) (price t) = Ok (net_amount t))).

(** The transactions of the log that carry a round trip's id, in log order. *)
Definition own_transactions (w : World) (rt : RoundTrip) : list Transaction :=
  filter (fun t => roundtrip_id t = rt_id rt) (transaction_log (portfolio w)).

(** A round trip object as [open_position] creates it, before its first
    transaction is added. *)
Definition blank_roundtrip (id : nat) (rt : RoundTrip) : Prop :=
  rt_id rt = id /\ transactions rt = [] /\
  _total_cost rt = 0 /\ _total_proceeds rt = 0.

(** How one ledger call relates the managed round trips after it to those
    before it: the log grows by [new]; a managed round trip is an old one that
    [new] does not concern, or it is an old open one, or a blank one with the
    next fresh id, to which the single new transaction has been added. *)
Definition ledger_step (w w' : World) : Prop :=
  exists new,
    transaction_log (portfolio w') = transaction_log (portfolio w) ++ new /\
    Forall (fun t => (roundtrip_id t < uuid_next w')%nat) new /\
    (uuid_next w <= uuid_next w')%nat /\
    forall rt', managed w' rt' ->
      (managed w rt' /\ Forall (fun t => roundtrip_id t <> rt_id rt') new) \/
      (exists rt t,
         new = [t] /\ roundtrip_id t = rt_id rt /\
         rt' = add_transaction rt t /\
         (managed w rt \/ blank_roundtrip (uuid_next w) rt)).

(** The cached totals of a round trip agree with its transactions. *)
Definition totals_agree (rt : RoundTrip) : Prop :=
  _total_cost rt =
    py_sum (map (fun t => Qabs (net_amount t))
              (filter (fun t => is_entry t = true) (transactions rt))) /\
  _total_proceeds rt =
    py_sum (map net_amount
              (filter (fun t => is_entry t <> true) (transactions rt))).

(** ** Exit rules: what a rule object refers to *)

(** The [TrailingStopExit] objects that occur in a rule, by reference. *)
Fixpoint trailing_refs (r : ExitRule) : list nat :=
  match r with
  | TrailingStopExit self_ref _ => [self_ref]
  | CompositeExitRule rules =>
      (fix refs_of (rules : list (ExitRule * Q)) : list nat :=
         match rules with
         | [] => []
         | (rule, _) :: rest => trailing_refs rule ++ refs_of rest
         end) rules
  | _ => []
  end.

(** The reasons the rules of [exitrule.py] give. *)
Definition exit_reasons : list string :=
  ["time_exit"; "stop_loss"; "trailing_stop"; "profit_target"]%string.

(** A result is well shaped: a decline is [(False, 0.0, "")], and a firing
    carries one of the four reasons. *)
Definition well_shaped (res : bool * Q * string) : Prop :=
  match res with
  | (false, portion, why) => portion = 0 /\ why = ""%string
  | (true, _, why) => In why exit_reasons
  end.

(** ** Sizers that put all the available cash into one position *)


(** ** backtester.py: the rest of the engine *)

(** The tickers the day's prices are looked up for: the universe, then the
    tickers of the open round trips. *)
Definition priced_tickers (self : Backtester) (p : Portfolio) : list string :=
  universe (strategy self) ++ map rt_ticker (dict_values (open_roundtrips p)).

(** The loop of [_close_all_positions] over the snapshot of the open round
    trips. *)
Fixpoint close_all_loop (items : list (nat * RoundTrip)) (final_date : Z)
    (final_prices : gmap string Q) : M unit :=
  match items with
  | [] => ret tt
  | (rt_id, roundtrip) :: rest =>
      match final_prices !! rt_ticker roundtrip with
      | Some final_price =>
          close_position rt_id final_date final_price "backtest_end" >>
          close_all_loop rest final_date final_prices
      | None => close_all_loop rest final_date final_prices
      end
  end.

Definition _close_all_positions (self : Backtester) (final_date : Z) : M unit :=
  let* final_prices := _get_current_prices self final_date in
  let* p := get_self in
  close_all_loop (open_roundtrips p) final_date final_prices.





(** Every price of the dictionary is positive. *)
Definition positive_prices (prices : gmap string Q) : Prop :=
  forall t p, prices !! t = Some p -> 0 < p.


(** ** Exit portions *)




(** The components of an entry [(rt_id, exit_portion, current_price, reason)]
    of [positions_to_exit]. *)
Definition exit_id (e : nat * Q * Q * string) : nat := fst (fst (fst e)).
Definition exit_share (e : nat * Q * Q * string) : Q := snd (fst (fst e)).
Definition exit_price (e : nat * Q * Q * string) : Q := snd (fst e).
Definition exit_reason (e : nat * Q * Q * string) : string := snd e.

(** An entry of [positions_to_exit] records what the exit rule of an open
    round trip with a price answered. *)
Definition asked_of (items : list (nat * RoundTrip)) (date : Z)
    (prices : gmap string Q) (e : nat * Q * Q * string) : Prop :=
  exists rt store,
    In (exit_id e, rt) items /\
    prices !! rt_ticker rt = Some (exit_price e) /\
    snd (should_exit (exit_rule rt) rt date (exit_price e) store)
      = (true, exit_share e, exit_reason e).

(** ** Marking the portfolio to market *)




(** ** Constructors of the strategy and of the backtester *)




(** ** Configuration dictionaries

    The values a configuration holds once it is parsed: [None], booleans,
    integers, floats, strings, lists, and dictionaries with string keys.  A
    dictionary is its list of entries; a lookup finds the first entry of a
    key. *)

#[warnings="-register-all"]
Inductive pyval : Type :=
| PyNone
| PyBool (b : bool)
| PyInt (z : Z)
| PyFloat (q : Q)
| PyStr (s : string)
| PyList (items : list pyval)
| PyDict (entries : list (string * pyval)).

Fixpoint py_get (key : string) (d : list (string * pyval)) : option pyval :=
  match d with
  | [] => None
  | (k, v) :: d' => if String.eqb key k then Some v else py_get key d'
  end.

(** What loading a configuration can raise: the exceptions of the engine,
    [TypeError] (comparing or indexing a value of the wrong type) and
    [AttributeError] (calling [.get] on something that is not a
    dictionary). *)
Inductive py_exn : Type :=
| Exn (e : exn)
| TypeError
| AttributeError.

(** The outcome of a loader: the object, an exception, or [Unmodelled] when
    Python builds an object that the typed objects of this development
    cannot hold (a fractional number of days or of positions, a threshold or
    a portion that is not a number). *)
Inductive loaded (A : Type) : Type :=
| Loaded (a : A)
| Fails (e : py_exn)
| Unmodelled.
Arguments Loaded {A} a.
Arguments Fails {A} e.
Arguments Unmodelled {A}.

Definition of_result {A} (r : result A) : loaded A :=
  match r with
  | Ok a => Loaded a
  | Raise e => Fails (Exn e)
  end.

(** A value where a number is expected; [bool] is a subclass of [int]. *)
Definition as_number (v : pyval) : option Q :=
  match v with
  | PyBool b => Some (if b then 1 else 0)
  | PyInt z => Some (inject_Z z)
  | PyFloat q => Some q
  | _ => None
  end.

(** [d.get(key, default)] *)
Definition py_get_default (key : string) (d : list (string * pyval))
    (dflt : pyval) : pyval :=
  match py_get key d with
  | Some v => v
  | None => dflt
  end.

(** ** positionsizer.py: configuration *)

Definition PositionSizer_to_dict (self : PositionSizer)
  : list (string * pyval) :=
  match self with
  | FixedDollarAmount dollar_amount =>
      [("type", PyStr "FixedDollarAmount");
       ("dollar_amount", PyFloat dollar_amount)]
  | PercentPortfolio percent =>
      [("type", PyStr "PercentPortfolio"); ("percent", PyFloat percent)]
  | PercentAvailableCash percent =>
      [("type", PyStr "PercentAvailableCash"); ("percent", PyFloat percent)]
  | EqualWeight default_max_positions =>
      [("type", PyStr "EqualWeight");
       ("default_max_positions", PyInt default_max_positions)]
  | FixedShares fixed_shares =>
      [("type", PyStr "FixedShares"); ("shares", PyFloat fixed_shares)]
  | RiskParity base_dollar_amount target_volatility max_adjustment =>
      [("type", PyStr "RiskParity");
       ("base_dollar_amount", PyFloat base_dollar_amount);
       ("target_volatility", PyFloat target_volatility);
       ("max_adjustment", PyFloat max_adjustment)]
  end%string.

(** A constructor called with a value of the dictionary: the first comparison
    with a number raises [TypeError] on a value that is not one. *)
Definition with_number {A} (v : pyval) (init : Q -> result A) : loaded A :=
  match as_number v with
  | Some q => of_result (init q)
  | None => Fails TypeError
  end.

(** [EqualWeight(default_max_positions=v)]: a float passes the check when it
    is positive, and the object then divides the cash by it. *)
Definition EqualWeight_new (v : pyval) : loaded PositionSizer :=
  match v with
  | PyBool b => of_result (EqualWeight_init (if b then 1 else 0))
  | PyInt z => of_result (EqualWeight_init z)
  | PyFloat q =>
      if Qle_bool q 0 then
        Fails (Exn (ValueError "default_max_positions must be positive"))
      else Unmodelled
  | _ => Fails TypeError
  end.

(** [RiskParity(b, t, m)]: the three checks in order, each on its value. *)
Definition RiskParity_new (b t m : pyval) : loaded PositionSizer :=
  match as_number b with
  | None => Fails TypeError
  | Some base_dollar_amount =>
      if Qle_bool base_dollar_amount 0 then
        Fails (Exn (ValueError "base_dollar_amount must be positive"))
      else
        match as_number t with
        | None => Fails TypeError
        | Some target_volatility =>
            if Qle_bool target_volatility 0 then
              Fails (Exn (ValueError "target_volatility must be positive"))
            else
              match as_number m with
              | None => Fails TypeError
              | Some max_adjustment =>
                  if Qltb max_adjustment 1 then
                    Fails (Exn (ValueError "max_adjustment must be >= 1.0"))
                  else
                    Loaded (RiskParity base_dollar_amount target_volatility
                              max_adjustment)
              end
        end
  end.

(** [cls(name=data[key])] *)
Definition from_key {A} (key : string) (data : list (string * pyval))
    (new : pyval -> loaded A) : loaded A :=
  match py_get key data with
  | Some v => new v
  | None => Fails (Exn KeyError)
  end.

Definition FixedDollarAmount_from_dict (data : list (string * pyval))
  : loaded PositionSizer :=
  from_key "dollar_amount" data (fun v => with_number v FixedDollarAmount_init).

Definition PercentPortfolio_from_dict (data : list (string * pyval))
  : loaded PositionSizer :=
  from_key "percent" data (fun v => with_number v PercentPortfolio_init).

Definition PercentAvailableCash_from_dict (data : list (string * pyval))
  : loaded PositionSizer :=
  from_key "percent" data (fun v => with_number v PercentAvailableCash_init).

Definition EqualWeight_from_dict (data : list (string * pyval))
  : loaded PositionSizer :=
  EqualWeight_new (py_get_default "default_max_positions" data (PyInt 10)).

Definition FixedShares_from_dict (data : list (string * pyval))
  : loaded PositionSizer :=
  from_key "shares" data (fun v => with_number v FixedShares_init).

Definition RiskParity_from_dict (data : list (string * pyval))
  : loaded PositionSizer :=
  from_key "base_dollar_amount" data
    (fun b =>
       RiskParity_new b
         (py_get_default "target_volatility" data (PyFloat (20 # 100)))
         (py_get_default "max_adjustment" data (PyFloat 2))).

Definition unknown_sizer : loaded PositionSizer :=
  Fails (Exn (ValueError "Unknown position sizer type")).

Definition create_position_sizer (data : list (string * pyval))
  : loaded PositionSizer :=
  match py_get "type" data with
  | Some (PyStr sizer_type) =>
      if String.eqb sizer_type "FixedDollarAmount" then
        FixedDollarAmount_from_dict data
      else if String.eqb sizer_type "PercentPortfolio" then
        PercentPortfolio_from_dict data
      else if String.eqb sizer_type "PercentAvailableCash" then
        PercentAvailableCash_from_dict data
      else if String.eqb sizer_type "EqualWeight" then
        EqualWeight_from_dict data
      else if String.eqb sizer_type "FixedShares" then
        FixedShares_from_dict data
      else if String.eqb sizer_type "RiskParity" then
        RiskParity_from_dict data
      else unknown_sizer
  | _ => unknown_sizer
  end.

(** The names [create_position_sizer] knows. *)
Definition sizer_types : list string :=
  ["FixedDollarAmount"; "PercentPortfolio"; "PercentAvailableCash";
   "EqualWeight"; "FixedShares"; "RiskParity"]%string.

(** ** condition.py *)

Inductive ConditionObj : Type :=
| GreaterThan (threshold : Q)
| LessThan (threshold : Q)
| Between (min_val max_val : Q).

Definition check (self : ConditionObj) (value : option Q) : bool :=
  match value with
  | None => false
  | Some value =>
      match self with
      | GreaterThan threshold => Qgtb value threshold
      | LessThan threshold => Qltb value threshold
      | Between min_val max_val =>
          Qle_bool min_val value && Qle_bool value max_val
      end
  end.

Definition Condition_to_dict (self : ConditionObj) : list (string * pyval) :=
  match self with
  | GreaterThan threshold =>
      [("type", PyStr "GreaterThan"); ("threshold", PyFloat threshold)]
  | LessThan threshold =>
      [("type", PyStr "LessThan"); ("threshold", PyFloat threshold)]
  | Between min_val max_val =>
      [("type", PyStr "Between"); ("min", PyFloat min_val);
       ("max", PyFloat max_val)]
  end%string.

(** The constructors of the conditions check nothing: any value is stored.
    Only numbers are conditions of this development. *)
Definition stored_number (v : pyval) : loaded Q :=
  match as_number v with
  | Some q => Loaded q
  | None => Unmodelled
  end.

Definition GreaterThan_from_dict (data : list (string * pyval))
  : loaded ConditionObj :=
  from_key "threshold" data
    (fun v => match stored_number v with
              | Loaded t => Loaded (GreaterThan t)
              | Fails e => Fails e
              | Unmodelled => Unmodelled
              end).

Definition LessThan_from_dict (data : list (string * pyval))
  : loaded ConditionObj :=
  from_key "threshold" data
    (fun v => match stored_number v with
              | Loaded t => Loaded (LessThan t)
              | Fails e => Fails e
              | Unmodelled => Unmodelled
              end).

Definition Between_from_dict (data : list (string * pyval))
  : loaded ConditionObj :=
  from_key "min" data
    (fun lo =>
       from_key "max" data
         (fun hi =>
            match stored_number lo, stored_number hi with
            | Loaded a, Loaded b => Loaded (Between a b)
            | _, _ => Unmodelled
            end)).

Definition unknown_condition : loaded ConditionObj :=
  Fails (Exn (ValueError "Unknown condition type")).

Definition create_condition (data : list (string * pyval))
  : loaded ConditionObj :=
  match py_get "type" data with
  | Some (PyStr cond_type) =>
      if String.eqb cond_type "GreaterThan" then GreaterThan_from_dict data
      else if String.eqb cond_type "LessThan" then LessThan_from_dict data
      else if String.eqb cond_type "Between" then Between_from_dict data
      else unknown_condition
  | _ => unknown_condition
  end.

(** A condition object as the [condition] of an entry rule. *)
Definition as_condition (c : ConditionObj) : Condition :=
  fun value => check c (Some value).

(** ** exitrule.py: configuration *)

(** Loading an exit rule may create [TrailingStopExit] objects: a loader
    threads the store of their [_peak_prices] dictionaries. *)
Definition Loader (A : Type) : Type :=
  gmap nat (gmap nat Q) -> gmap nat (gmap nat Q) * loaded A.

Definition load_ret {A} (r : loaded A) : Loader A := fun store => (store, r).

Definition load_bind {A B} (m : Loader A) (k : A -> Loader B) : Loader B :=
  fun store =>
    match m store with
    | (store', Loaded a) => k a store'
    | (store', Fails e) => (store', Fails e)
    | (store', Unmodelled) => (store', Unmodelled)
    end.

Section Find.
Context {A : Type} (key : string) (missing : A) (found : pyval -> A).

(** [found d[key]], and [missing] when the key is absent. *)
Fixpoint py_find (d : list (string * pyval)) : A :=
  match d with
  | [] => missing
  | (k, v) :: d' => if String.eqb key k then found v else py_find d'
  end.
End Find.

Section Each.
Context {A : Type} (load : pyval -> Loader A).

(** [for item in items: acc.append(load(item))] *)
Fixpoint load_each (items : list pyval) (acc : list A) : Loader (list A) :=
  match items with
  | [] => load_ret (Loaded acc)
  | item :: rest => load_bind (load item) (fun a => load_each rest (acc ++ [a]))
  end.
End Each.

Fixpoint ExitRule_to_dict (self : ExitRule) : pyval :=
  match self with
  | TimeBasedExit holding_days =>
      PyDict [("type", PyStr "TimeBasedExit");
              ("params", PyDict [("holding_days", PyInt holding_days)])]
  | StopLossExit stop_pct =>
      PyDict [("type", PyStr "StopLossExit");
              ("params", PyDict [("stop_pct", PyFloat stop_pct)])]
  | TrailingStopExit _ trailing_pct =>
      PyDict [("type", PyStr "TrailingStopExit");
              ("params", PyDict [("trailing_pct", PyFloat trailing_pct)])]
  | ProfitTargetExit target_pct exit_portion =>
      PyDict [("type", PyStr "ProfitTargetExit");
              ("params", PyDict [("target_pct", PyFloat target_pct);
                                 ("exit_portion", PyFloat exit_portion)])]
  | CompositeExitRule rules =>
      PyDict [("type", PyStr "CompositeExitRule");
              ("rules",
               PyList (map (fun '(rule, portion) =>
                              PyDict [("rule", ExitRule_to_dict rule);
                                      ("portion", PyFloat portion)])
                         rules))]
  end%string.

(** [data["params"][key]], handed to a constructor. *)
Definition from_params {A} (key : string) (data : list (string * pyval))
    (new : pyval -> loaded A) : loaded A :=
  match py_get "params" data with
  | None => Fails (Exn KeyError)
  | Some (PyDict params) => from_key key params new
  | Some _ => Fails TypeError
  end.

(** [TimeBasedExit(holding_days=v)]: a positive float passes the check. *)
Definition TimeBasedExit_new (v : pyval) : loaded ExitRule :=
  match v with
  | PyBool b => of_result (TimeBasedExit_init (if b then 1 else 0))
  | PyInt z => of_result (TimeBasedExit_init z)
  | PyFloat q =>
      if Qle_bool q 0 then Fails (Exn (ValueError "holding_days must be positive"))
      else Unmodelled
  | _ => Fails TypeError
  end.

Definition TimeBasedExit_from_dict (data : list (string * pyval))
  : loaded ExitRule :=
  from_params "holding_days" data TimeBasedExit_new.

Definition StopLossExit_from_dict (data : list (string * pyval))
  : loaded ExitRule :=
  from_params "stop_pct" data (fun v => with_number v StopLossExit_init).

(** [TrailingStopExit(trailing_pct=v)]: the new object gets its own empty
    [_peak_prices]. *)
Definition TrailingStopExit_new (v : pyval) : Loader ExitRule :=
  match as_number v with
  | None => load_ret (Fails TypeError)
  | Some trailing_pct =>
      if Qle_bool trailing_pct 0 then
        load_ret (Fails (Exn (ValueError "trailing_pct must be positive")))
      else
        fun store =>
          let ref := fresh (dom store) in
          (<[ref := ∅]> store, Loaded (TrailingStopExit ref trailing_pct))
  end.

Definition TrailingStopExit_from_dict (data : list (string * pyval))
  : Loader ExitRule :=
  match py_get "params" data with
  | None => load_ret (Fails (Exn KeyError))
  | Some (PyDict params) =>
      match py_get "trailing_pct" params with
      | None => load_ret (Fails (Exn KeyError))
      | Some v => TrailingStopExit_new v
      end
  | Some _ => load_ret (Fails TypeError)
  end.

(** [ProfitTargetExit(target_pct=t, exit_portion=p)]: the two checks in
    order, each on its value. *)
Definition ProfitTargetExit_new (t p : pyval) : loaded ExitRule :=
  match as_number t with
  | None => Fails TypeError
  | Some target_pct =>
      if Qle_bool target_pct 0 then
        Fails (Exn (ValueError "target_pct must be positive"))
      else
        match as_number p with
        | None => Fails TypeError
        | Some exit_portion =>
            if negb (Qltb 0 exit_portion && Qle_bool exit_portion 1) then
              Fails (Exn (ValueError "exit_portion must be in (0, 1]"))
            else Loaded (ProfitTargetExit target_pct exit_portion)
        end
  end.

Definition ProfitTargetExit_from_dict (data : list (string * pyval))
  : loaded ExitRule :=
  match py_get "params" data with
  | None => Fails (Exn KeyError)
  | Some (PyDict params) =>
      from_key "target_pct" params
        (fun t =>
           ProfitTargetExit_new t (py_get_default "exit_portion" params (PyFloat 1)))
  | Some _ => Fails TypeError
  end.

Definition unknown_exit_rule : Loader ExitRule :=
  load_ret (Fails (Exn (ValueError "Unknown exit rule type"))).

(** [create_exit_rule], with [CompositeExitRule.from_dict] in its branch: the
    two call each other.  Iterating [data["rules"]] when it is not a list:
    an empty string or dictionary gives no slot, a non-empty one gives
    strings, which cannot be indexed by "rule"; the rest cannot be iterated. *)
Fixpoint create_exit_rule (data : pyval) : Loader ExitRule :=
  match data with
  | PyDict d =>
      match py_get "type" d with
      | Some (PyStr rule_type) =>
          if String.eqb rule_type "TimeBasedExit" then
            load_ret (TimeBasedExit_from_dict d)
          else if String.eqb rule_type "StopLossExit" then
            load_ret (StopLossExit_from_dict d)
          else if String.eqb rule_type "TrailingStopExit" then
            TrailingStopExit_from_dict d
          else if String.eqb rule_type "ProfitTargetExit" then
            load_ret (ProfitTargetExit_from_dict d)
          else if String.eqb rule_type "CompositeExitRule" then
            py_find "rules" (load_ret (Fails (Exn KeyError)))
              (fun rules_data =>
                 match rules_data with
                 | PyList items =>
                     load_bind
                       (load_each
                          (fun rule_data =>
                             match rule_data with
                             | PyDict rd =>
                                 py_find "rule" (load_ret (Fails (Exn KeyError)))
                                   (fun v =>
                                      load_bind (create_exit_rule v)
                                        (fun rule =>
                                           match py_get "portion" rd with
                                           | None => load_ret (Fails (Exn KeyError))
                                           | Some pv =>
                                               match as_number pv with
                                               | Some portion =>
                                                   load_ret (Loaded (rule, portion))
                                               | None => load_ret Unmodelled
                                               end
                                           end))
                                   rd
                             | _ => load_ret (Fails TypeError)
                             end)
                          items [])
                       (fun rules =>
                          load_ret (of_result (CompositeExitRule_init rules)))
                 | PyStr EmptyString | PyDict [] =>
                     load_ret (of_result (CompositeExitRule_init []))
                 | _ => load_ret (Fails TypeError)
                 end)
              d
          else unknown_exit_rule
      | _ => unknown_exit_rule
      end
  | _ => load_ret (Fails AttributeError)
  end.

(** The body of the loop of [CompositeExitRule.from_dict]. *)
Definition load_slot (rule_data : pyval) : Loader (ExitRule * Q) :=
  match rule_data with
  | PyDict rd =>
      match py_get "rule" rd with
      | None => load_ret (Fails (Exn KeyError))
      | Some v =>
          load_bind (create_exit_rule v)
            (fun rule =>
               match py_get "portion" rd with
               | None => load_ret (Fails (Exn KeyError))
               | Some pv =>
                   match as_number pv with
                   | Some portion => load_ret (Loaded (rule, portion))
                   | None => load_ret Unmodelled
                   end
               end)
      end
  | _ => load_ret (Fails TypeError)
  end.

Definition CompositeExitRule_from_dict (data : list (string * pyval))
  : Loader ExitRule :=
  match py_get "rules" data with
  | None => load_ret (Fails (Exn KeyError))
  | Some (PyList items) =>
      load_bind (load_each load_slot items [])
        (fun rules => load_ret (of_result (CompositeExitRule_init rules)))
  | Some (PyStr EmptyString) | Some (PyDict []) =>
      load_ret (of_result (CompositeExitRule_init []))
  | Some _ => load_ret (Fails TypeError)
  end.

(** A rule object that the constructors accept, sub-rules included. *)
Fixpoint rule_constructed (r : ExitRule) : Prop :=
  match r with
  | TimeBasedExit holding_days => (0 < holding_days)%Z
  | StopLossExit stop_pct => 0 < stop_pct
  | TrailingStopExit _ trailing_pct => 0 < trailing_pct
  | ProfitTargetExit target_pct exit_portion =>
      0 < target_pct /\ 0 < exit_portion /\ exit_portion <= 1
  | CompositeExitRule rules =>
      rules <> [] /\
      (fix all (rules : list (ExitRule * Q)) : Prop :=
         match rules with
         | [] => True
         | (rule, _) :: rest => rule_constructed rule /\ all rest
         end) rules
  end.

(** The names [create_exit_rule] knows. *)
Definition exit_rule_types : list string :=
  ["TimeBasedExit"; "StopLossExit"; "TrailingStopExit"; "ProfitTargetExit";
   "CompositeExitRule"]%string.

(** One slot of a [CompositeExitRule] in [to_dict]. *)
Definition slot_to_dict (rp : ExitRule * Q) : pyval :=
  let '(rule, portion) := rp in
  PyDict [("rule", ExitRule_to_dict rule); ("portion", PyFloat portion)]%string.

(** The [TrailingStopExit] objects of the slots of a composite rule. *)
Definition slot_refs (rules : list (ExitRule * Q)) : list nat :=
  flat_map (fun rp => trailing_refs (fst rp)) rules.

(** Between [store] and [store'], exactly the objects [refs] were created,
    each once, each with an empty [_peak_prices]. *)
Definition allocated (refs : list nat)
    (store store' : gmap nat (gmap nat Q)) : Prop :=
  List.NoDup refs /\
  (forall k, In k refs -> store !! k = None /\ store' !! k = Some ∅) /\
  (forall k, ~ In k refs -> store' !! k = store !! k).

(** Loading the rule's own [to_dict] gives a rule with the same
    configuration whose [TrailingStopExit] objects are new. *)
Definition reloads (r : ExitRule) : Prop :=
  forall store,
  exists r' store',
    create_exit_rule (ExitRule_to_dict r) store = (store', Loaded r') /\
    ExitRule_to_dict r' = ExitRule_to_dict r /\
    allocated (trailing_refs r') store store' /\
    (trailing_refs r = [] -> r' = r).

(** ** Profit and loss over the round trips *)




(** * Properties *)

(** ** Tactics *)

(** Unfold the monad's operations in a method body. *)
Ltac run_monad :=
  unfold bind, get_self, lift, ret, raise, update_self, uuid4; cbn.



(** ** Boolean comparisons on [Q] *)

Lemma Qltb_lt (x y : Q) : Qltb x y = true <-> x < y.
Proof.
  unfold Qltb. rewrite negb_true_iff, <- not_true_iff_false, Qle_bool_iff.
  split; [apply Qnot_le_lt | apply Qlt_not_le].
Qed.

Lemma Qltb_ge (x y : Q) : Qltb x y = false <-> y <= x.
Proof. unfold Qltb. rewrite negb_false_iff. apply Qle_bool_iff. Qed.

Lemma Qle_bool_gt (x y : Q) : Qle_bool x y = false <-> y < x.
Proof.
  rewrite <- not_true_iff_false, Qle_bool_iff.
  split; [apply Qnot_le_lt | apply Qlt_not_le].
Qed.


Lemma py_sum_snoc (l : list Q) (x : Q) : py_sum (l ++ [x]) = py_sum l + x.
Proof. unfold py_sum. now rewrite fold_left_app. Qed.



(** ** Dictionaries *)

Section DictFacts.
Context {V : Type}.
Implicit Types (d : list (nat * V)) (k : nat) (v : V).

Lemma dict_get_In d k v : dict_get k d = Some v -> In (k, v) d.
Proof.
  induction d as [|[k' v'] d IH]; simpl; [discriminate|].
  destruct (Nat.eqb_spec k k') as [->|Hne]; intros H.
  - injection H as ->. now left.
  - right. auto.
Qed.

Lemma dict_get_None d k : dict_get k d = None <-> ~ In k (dict_keys d).
Proof.
  induction d as [|[k' v'] d IH]; simpl; [tauto|].
  destruct (Nat.eqb_spec k k') as [->|Hne].
  - split; [discriminate | intros H; exfalso; apply H; now left].
  - rewrite IH. split; intros H; [intros [E|E]; [congruence | tauto] | tauto].
Qed.

Lemma In_dict_get d k v :
  List.NoDup (dict_keys d) -> In (k, v) d -> dict_get k d = Some v.
Proof.
  induction d as [|[k' v'] d IH]; simpl; [tauto|].
  intros Hnd [E|Hin]; inversion Hnd as [|? ? Hk Hnd']; subst.
  - injection E as -> ->. now rewrite Nat.eqb_refl.
  - destruct (Nat.eqb_spec k k') as [->|Hne]; [|auto].
    exfalso. apply Hk. change k' with (fst (k', v)). now apply in_map.
Qed.

Lemma dict_set_fresh d k v :
  dict_get k d = None -> dict_set k v d = d ++ [(k, v)].
Proof.
  induction d as [|[k' v'] d IH]; simpl; [reflexivity|].
  destruct (Nat.eqb k k'); [discriminate|]. intros H. now rewrite IH.
Qed.


Lemma dict_keys_set_present d k v v' :
  dict_get k d = Some v' -> dict_keys (dict_set k v d) = dict_keys d.
Proof.
  induction d as [|[k' w] d IH]; simpl; [discriminate|].
  destruct (Nat.eqb_spec k k') as [->|Hne]; simpl; [reflexivity|].
  intros H. now rewrite IH.
Qed.

Lemma In_dict_set d k v k0 v0 :
  In (k0, v0) (dict_set k v d) -> (k0 = k /\ v0 = v) \/ In (k0, v0) d.
Proof.
  induction d as [|[k' w] d IH]; simpl.
  - intros [E|[]]. injection E as <- <-. now left.
  - destruct (Nat.eqb_spec k k') as [->|Hne]; simpl.
    + intros [E|H]; [injection E as <- <-; now left | right; now right].
    + intros [E|H]; [right; now left|].
      destruct (IH H) as [?|?]; [now left | right; now right].
Qed.

Lemma In_dict_del d k k0 v0 : In (k0, v0) (dict_del k d) -> In (k0, v0) d.
Proof.
  induction d as [|[k' w] d IH]; simpl; [tauto|].
  destruct (Nat.eqb k k'); simpl; [now right|].
  intros [E|H]; [now left | right; auto].
Qed.

Lemma dict_keys_del_subset d k k0 :
  In k0 (dict_keys (dict_del k d)) -> In k0 (dict_keys d).
Proof.
  induction d as [|[k' w] d IH]; simpl; [tauto|].
  destruct (Nat.eqb k k'); simpl; [now right|].
  intros [E|H]; [now left | right; auto].
Qed.

Lemma dict_del_NoDup d k : List.NoDup (dict_keys d) -> List.NoDup (dict_keys (dict_del k d)).
Proof.
  induction d as [|[k' w] d IH]; simpl; [trivial|].
  intros Hnd. inversion Hnd as [|? ? Hk Hnd']; subst.
  destruct (Nat.eqb k k'); [assumption|]. simpl. constructor; [|auto].
  intros H. apply Hk. eapply dict_keys_del_subset, H.
Qed.

Lemma dict_del_not_in d k :
  List.NoDup (dict_keys d) -> ~ In k (dict_keys (dict_del k d)).
Proof.
  induction d as [|[k' w] d IH]; simpl; [tauto|].
  intros Hnd. inversion Hnd as [|? ? Hk Hnd']; subst.
  destruct (Nat.eqb_spec k k') as [->|Hne]; [assumption|].
  simpl. intros [E|H]; [congruence | now apply IH].
Qed.

End DictFacts.

(** ** The ledger methods, case by case *)


Lemma open_position_run ticker date price shares er md w :
  open_position ticker date price shares er md w =
  let self := portfolio w in
  let sh := _round_shares self shares in
  if Qle_bool sh 0 then (w, Ok None)
  else if negb (can_open_position self) then (w, Ok None)
  else
    match calculate_entry_cost (transaction_cost self) sh price with
    | Raise e => (w, Raise e)
    | Ok entry_cost =>
        if Qgtb entry_cost (cash self) then (w, Ok None)
        else
          let id := uuid_next w in
          let t :=
            {| txn_id := S id; roundtrip_id := id; txn_ticker := ticker;
               txn_date := date; transaction_type := "open"; shares := sh;
               price := price; net_amount := - entry_cost;
               reason := "signal" |} in
          let rt :=
            {| rt_id := id; rt_ticker := ticker; transactions := [t];
               exit_rule := er;
               entry_signal_metadata :=
                 match md with Some m => m | None => empty_metadata end;
               _total_cost := 0 + Qabs (- entry_cost);
               _total_proceeds := 0 |} in
          ({| portfolio :=
                with_log (transaction_log self ++ [t])
                  (with_open (dict_set id rt (open_roundtrips self))
                     (with_cash (cash self - entry_cost) self));
              uuid_next := S (S id);
              peak_store := peak_store w |}, Ok (Some rt))
    end.
Proof.
  unfold open_position. run_monad.
  destruct (Qle_bool _ 0); [reflexivity|].
  destruct (can_open_position _); [|reflexivity]. cbn.
  destruct (calculate_entry_cost _ _ _) as [c|e]; [|reflexivity]. cbn.
  destruct (Qgtb c _); reflexivity.
Qed.

Lemma add_to_position_run id date price shares reason w :
  add_to_position id date price shares reason w =
  let self := portfolio w in
  match dict_get id (open_roundtrips self) with
  | None => (w, Raise (ValueError "RoundTrip not found"))
  | Some roundtrip =>
      let sh := _round_shares self shares in
      if Qle_bool sh 0 then (w, Ok false)
      else
        match calculate_entry_cost (transaction_cost self) sh price with
        | Raise e => (w, Raise e)
        | Ok add_cost =>
            if Qgtb add_cost (cash self) then (w, Ok false)
            else
              let t :=
                {| txn_id := uuid_next w; roundtrip_id := id;
                   txn_ticker := rt_ticker roundtrip; txn_date := date;
                   transaction_type := "add"; shares := sh; price := price;
                   net_amount := - add_cost; reason := reason |} in
              ({| portfolio :=
                    with_log (transaction_log self ++ [t])
                      (with_cash (cash self - add_cost)
                         (with_open
                            (dict_set id (add_transaction roundtrip t)
                               (open_roundtrips self)) self));
                  uuid_next := S (uuid_next w);
                  peak_store := peak_store w |}, Ok true)
        end
  end.
Proof.
  unfold add_to_position. run_monad.
  destruct (dict_get _ _) as [rt|]; [|reflexivity].
  destruct (Qle_bool _ 0); [reflexivity|].
  destruct (calculate_entry_cost _ _ _) as [c|e]; [|reflexivity]. cbn.
  destruct (Qgtb c _); reflexivity.
Qed.

Lemma reduce_position_run id date price shares reason w :
  reduce_position id date price shares reason w =
  let self := portfolio w in
  match dict_get id (open_roundtrips self) with
  | None => (w, Raise (ValueError "RoundTrip not found"))
  | Some roundtrip =>
      if Qgtb shares (remaining_shares roundtrip) then
        (w, Raise (ValueError "Cannot exit more shares than available"))
      else
        match calculate_exit_value (transaction_cost self) shares price with
        | Raise e => (w, Raise e)
        | Ok exit_value =>
            let t :=
              {| txn_id := uuid_next w; roundtrip_id := id;
                 txn_ticker := rt_ticker roundtrip; txn_date := date;
                 transaction_type := "reduce"; shares := shares;
                 price := price; net_amount := exit_value;
                 reason := reason |} in
            let rt' := add_transaction roundtrip t in
            let p1 :=
              with_log (transaction_log self ++ [t])
                (with_cash (cash self + exit_value)
                   (with_open (dict_set id rt' (open_roundtrips self)) self)) in
            let p2 :=
              if Qeq_bool (remaining_shares rt') 0 then
                with_open (dict_del id (open_roundtrips p1))
                  (with_closed (closed_roundtrips p1 ++ [rt']) p1)
              else p1 in
            ({| portfolio := p2; uuid_next := S (uuid_next w);
                peak_store := peak_store w |},
             Ok (exit_value - average_entry_price roundtrip * shares))
        end
  end.
Proof.
  unfold reduce_position. run_monad.
  destruct (dict_get _ _) as [rt|]; [|reflexivity].
  destruct (Qgtb shares _); [reflexivity|].
  destruct (calculate_exit_value _ _ _) as [c|e]; [|reflexivity]. cbn.
  destruct (Qeq_bool _ 0); reflexivity.
Qed.

Lemma close_position_run id date price reason w :
  close_position id date price reason w =
  match dict_get id (open_roundtrips (portfolio w)) with
  | None => (w, Raise (ValueError "RoundTrip not found"))
  | Some roundtrip =>
      reduce_position id date price (remaining_shares roundtrip) reason w
  end.
Proof.
  unfold close_position. cbv beta iota delta [bind get_self raise].
  destruct (dict_get _ _); reflexivity.
Qed.

(** ** Cash conservation *)







(** The costed scenario of the specification: $10,000, no costs; 10 shares at
    $100, 5 more at $90, everything sold at $110. *)
Example scenario_cash :
  let w0 := initial_world 10000 5 (mkTransactionCost 0 0) true in
  let ops := [OpOpen "A" 0 100 10 (TimeBasedExit 30) None;
              OpAdd 0 1 90 5 "add"; OpClose 0 2 110 "exit"] in
  snd (run ops w0) = [Succeeded; Succeeded; Succeeded] /\
  Qred (cash (portfolio (fst (run (firstn 1 ops) w0)))) = 9000 /\
  Qred (cash (portfolio (fst (run (firstn 2 ops) w0)))) = 8550 /\
  Qred (cash (portfolio (fst (run ops w0)))) = 10200.
Proof. vm_compute. auto. Qed.

(** ** Shares of a round trip *)

Lemma filter_snoc_true {A} (P : A -> Prop) `{forall x, Decision (P x)}
    (l : list A) (x : A) :
  P x -> filter P (l ++ [x]) = filter P l ++ [x].
Proof.
  intros HP. rewrite filter_app. f_equal.
  rewrite filter_cons_True by assumption. reflexivity.
Qed.

Lemma filter_snoc_false {A} (P : A -> Prop) `{forall x, Decision (P x)}
    (l : list A) (x : A) :
  ~ P x -> filter P (l ++ [x]) = filter P l.
Proof.
  intros HP. rewrite filter_app.
  rewrite (filter_cons_False P x []) by assumption. apply app_nil_r.
Qed.

Lemma transactions_add rt t :
  transactions (add_transaction rt t) = transactions rt ++ [t].
Proof. unfold add_transaction. destruct (is_entry t); reflexivity. Qed.

Lemma rt_id_add rt t : rt_id (add_transaction rt t) = rt_id rt.
Proof. unfold add_transaction. destruct (is_entry t); reflexivity. Qed.

Lemma remaining_add_entry rt t :
  is_entry t = true -> is_exit t = false ->
  remaining_shares (add_transaction rt t) = 
  (let entries := py_sum (map shares (filter (fun t => is_entry t = true) (transactions rt))) in
   let exits := py_sum (map shares (filter (fun t => is_exit t = true) (transactions rt))) in
   (entries + shares t) - exits).
Proof.
  intros He Hx. unfold remaining_shares. rewrite transactions_add.
  rewrite (filter_snoc_true (fun t => is_entry t = true)) by assumption.
  rewrite (filter_snoc_false (fun t => is_exit t = true))
    by (rewrite Hx; discriminate).
  rewrite map_app. cbn [map]. rewrite py_sum_snoc. reflexivity.
Qed.

Lemma remaining_add_exit rt t :
  is_entry t = false -> is_exit t = true ->
  remaining_shares (add_transaction rt t) =
  (let entries := py_sum (map shares (filter (fun t => is_entry t = true) (transactions rt))) in
   let exits := py_sum (map shares (filter (fun t => is_exit t = true) (transactions rt))) in
   entries - (exits + shares t)).
Proof.
  intros He Hx. unfold remaining_shares. rewrite transactions_add.
  rewrite (filter_snoc_true (fun t => is_exit t = true)) by assumption.
  rewrite (filter_snoc_false (fun t => is_entry t = true))
    by (rewrite He; discriminate).
  rewrite map_app. cbn [map]. rewrite py_sum_snoc. reflexivity.
Qed.

Lemma remaining_after_entry rt t :
  is_entry t = true -> is_exit t = false ->
  remaining_shares (add_transaction rt t) == remaining_shares rt + shares t.
Proof.
  intros He Hx. rewrite remaining_add_entry by assumption.
  unfold remaining_shares. cbv zeta. lra.
Qed.

Lemma remaining_after_exit rt t :
  is_entry t = false -> is_exit t = true ->
  remaining_shares (add_transaction rt t) == remaining_shares rt - shares t.
Proof.
  intros He Hx. rewrite remaining_add_exit by assumption.
  unfold remaining_shares. cbv zeta. lra.
Qed.

Lemma entry_cost_positive_shares tc s p c :
  calculate_entry_cost tc s p = Ok c -> 0 < s /\ 0 < p.
Proof.
  unfold calculate_entry_cost.
  destruct (Qle_bool s 0) eqn:Hs; [discriminate|].
  destruct (Qle_bool p 0) eqn:Hp; [discriminate|].
  intros _. split; now apply Qle_bool_gt.
Qed.

Lemma exit_value_positive_shares tc s p c :
  calculate_exit_value tc s p = Ok c -> 0 < s /\ 0 < p.
Proof.
  unfold calculate_exit_value.
  destruct (Qle_bool s 0) eqn:Hs; [discriminate|].
  destruct (Qle_bool p 0) eqn:Hp; [discriminate|].
  intros _. split; now apply Qle_bool_gt.
Qed.

(** ** The ledger methods keep the invariant *)

Lemma in_dict_keys {V} (d : list (nat * V)) k v : In (k, v) d -> In k (dict_keys d).
Proof. intros H. change k with (fst (k, v)). now apply in_map. Qed.

Lemma in_dict_keys_inv {V} (d : list (nat * V)) k :
  In k (dict_keys d) -> exists v, In (k, v) d.
Proof.
  unfold dict_keys. rewrite in_map_iff. intros ([k' v] & E & H).
  simpl in E. subst. now exists v.
Qed.

Lemma NoDup_snoc {A} (l : list A) (x : A) :
  List.NoDup l -> ~ In x l -> List.NoDup (l ++ [x]).
Proof.
  induction l as [|y l IH]; simpl; intros Hnd Hx.
  - constructor; [tauto | constructor].
  - inversion Hnd as [|? ? Hy Hnd']; subst. constructor.
    + rewrite in_app_iff. simpl. intros [?|[?|[]]]; [tauto | subst; tauto].
    + apply IH; tauto.
Qed.

Lemma fresh_id_not_open w :
  ledger_invariant w ->
  dict_get (uuid_next w) (open_roundtrips (portfolio w)) = None.
Proof.
  intros Hinv. apply dict_get_None. intros Hin.
  apply in_dict_keys_inv in Hin as [rt Hin].
  apply (inv_open w Hinv) in Hin. lia.
Qed.

Lemma remaining_opened id ticker sh er md c t :
  transaction_type t = "open"%string -> shares t = sh ->
  remaining_shares
    {| rt_id := id; rt_ticker := ticker; transactions := [t];
       exit_rule := er; entry_signal_metadata := md; _total_cost := c;
       _total_proceeds := 0 |} == sh.
Proof.
  intros Hty Hsh. unfold remaining_shares. cbn [transactions].
  rewrite (filter_cons_True (fun t => is_entry t = true))
    by (unfold is_entry; now rewrite Hty).
  rewrite (filter_cons_False (fun t => is_exit t = true))
    by (unfold is_exit; now rewrite Hty).
  rewrite !filter_nil. cbn [map]. unfold py_sum. simpl. rewrite Hsh. lra.
Qed.

Lemma open_position_inv ticker date price shares er md w :
  ledger_invariant w ->
  ledger_invariant (fst (open_position ticker date price shares er md w)).
Proof.
  intros Hinv. rewrite open_position_run. cbv zeta.
  destruct (Qle_bool _ 0) eqn:Hs; [assumption|].
  destruct (negb _); [assumption|].
  destruct (calculate_entry_cost _ _ _) as [c|e]; [|assumption].
  destruct (Qgtb c _); [assumption|].
  apply Qle_bool_gt in Hs.
  pose proof (fresh_id_not_open w Hinv) as Hfresh.
  destruct Hinv as [Hnd Hopen Hclosed].
  constructor; cbn [fst portfolio uuid_next with_log with_open with_cash
                    open_roundtrips closed_roundtrips];
    rewrite ?(dict_set_fresh _ _ _ Hfresh).
  - unfold dict_keys. rewrite map_app. apply NoDup_snoc; [exact Hnd|].
    now apply dict_get_None.
  - intros id rt Hin. apply in_app_or in Hin as [Hin|[E|[]]].
    + destruct (Hopen _ _ Hin) as (? & ? & ?). repeat split; auto; lia.
    + injection E as <- <-. cbn [rt_id]. repeat split; [|lia].
      rewrite remaining_opened by reflexivity. exact Hs.
  - intros rt Hin. destruct (Hclosed _ Hin) as (? & ? & Hk).
    repeat split; [assumption | lia |].
    unfold dict_keys. rewrite map_app, in_app_iff. simpl.
    intros [?|[?|[]]]; [now apply Hk | lia].
Qed.

Lemma add_to_position_inv id date price qty reason w :
  ledger_invariant w ->
  ledger_invariant (fst (add_to_position id date price qty reason w)).
Proof.
  intros Hinv. rewrite add_to_position_run. cbv zeta.
  destruct (dict_get _ _) as [rt|] eqn:Hget; [|assumption].
  destruct (Qle_bool _ 0) eqn:Hs; [assumption|].
  destruct (calculate_entry_cost _ _ _) as [c|e]; [|assumption].
  destruct (Qgtb c _); [assumption|].
  apply Qle_bool_gt in Hs.
  destruct Hinv as [Hnd Hopen Hclosed].
  pose proof (Hopen _ _ (dict_get_In _ _ _ Hget)) as (Hid & Hrem & Hlt).
  constructor; cbn [fst portfolio uuid_next with_log with_open with_cash
                    open_roundtrips closed_roundtrips];
    rewrite ?(dict_keys_set_present _ _ _ _ Hget).
  - exact Hnd.
  - intros k r Hin. apply In_dict_set in Hin as [[-> ->]|Hin].
    + rewrite rt_id_add. repeat split; [assumption | | lia].
      rewrite remaining_after_entry by reflexivity. cbn [shares]. lra.
    + destruct (Hopen _ _ Hin) as (? & ? & ?). repeat split; auto; lia.
  - intros r Hin. destruct (Hclosed _ Hin) as (? & ? & Hk).
    repeat split; [assumption | lia | assumption].
Qed.

Lemma reduce_position_inv id date price shares reason w :
  ledger_invariant w ->
  ledger_invariant (fst (reduce_position id date price shares reason w)).
Proof.
  intros Hinv. rewrite reduce_position_run. cbv zeta.
  destruct (dict_get _ _) as [rt|] eqn:Hget; [|assumption].
  destruct (Qgtb shares _) eqn:Hle; [assumption|].
  destruct (calculate_exit_value _ _ _) as [c|e] eqn:Hc; [|assumption].
  apply Qltb_ge in Hle. apply exit_value_positive_shares in Hc as [Hs _].
  destruct Hinv as [Hnd Hopen Hclosed].
  pose proof (Hopen _ _ (dict_get_In _ _ _ Hget)) as (Hid & Hrem & Hlt).
  set (t := {| txn_id := uuid_next w; roundtrip_id := id;
               txn_ticker := rt_ticker rt; txn_date := date;
               transaction_type := "reduce"; shares := shares; price := price;
               net_amount := c; reason := reason |}).
  assert (Hrem' : remaining_shares (add_transaction rt t)
                  == remaining_shares rt - shares)
    by (now rewrite remaining_after_exit).
  destruct (Qeq_bool _ 0) eqn:Hz.
  - apply Qeq_bool_iff in Hz.
    constructor; cbn [fst portfolio uuid_next with_log with_open with_cash
                      with_closed open_roundtrips closed_roundtrips].
    + apply dict_del_NoDup. now rewrite (dict_keys_set_present _ _ _ _ Hget).
    + intros k r Hin.
      assert (Hk : k <> id).
      { intros ->. apply in_dict_keys in Hin. revert Hin.
        apply dict_del_not_in.
        now rewrite (dict_keys_set_present _ _ _ _ Hget). }
      apply In_dict_del, In_dict_set in Hin as [[-> _]|Hin]; [congruence|].
      destruct (Hopen _ _ Hin) as (? & ? & ?). repeat split; auto; lia.
    + intros r Hin. apply in_app_or in Hin as [Hin|[<-|[]]].
      * destruct (Hclosed _ Hin) as (? & ? & Hk).
        repeat split; [assumption | lia |].
        intros Hin'. apply Hk. apply dict_keys_del_subset in Hin'.
        now rewrite (dict_keys_set_present _ _ _ _ Hget) in Hin'.
      * rewrite rt_id_add, Hid. repeat split; [assumption | lia |].
        apply dict_del_not_in.
        now rewrite (dict_keys_set_present _ _ _ _ Hget).
  - apply Qeq_bool_neq in Hz.
    constructor; cbn [fst portfolio uuid_next with_log with_open with_cash
                      with_closed open_roundtrips closed_roundtrips];
      rewrite ?(dict_keys_set_present _ _ _ _ Hget).
    + exact Hnd.
    + intros k r Hin. apply In_dict_set in Hin as [[-> ->]|Hin].
      * rewrite rt_id_add. repeat split; [assumption | | lia].
        destruct (Qlt_le_dec 0 (remaining_shares (add_transaction rt t)))
          as [?|Hneg]; [assumption|].
        exfalso. apply Hz. lra.
      * destruct (Hopen _ _ Hin) as (? & ? & ?). repeat split; auto; lia.
    + intros r Hin. destruct (Hclosed _ Hin) as (? & ? & Hk).
      repeat split; [assumption | lia | assumption].
Qed.

Lemma close_position_inv id date price reason w :
  ledger_invariant w ->
  ledger_invariant (fst (close_position id date price reason w)).
Proof.
  intros Hinv. rewrite close_position_run.
  destruct (dict_get _ _); [now apply reduce_position_inv | assumption].
Qed.

Lemma call_inv o w : ledger_invariant w -> ledger_invariant (fst (call o w)).
Proof.
  intros Hinv. destruct o as [tk d p s er md | id d p s r | id d p s r | id d p r];
    unfold call.
  - pose proof (open_position_inv tk d p s er md w Hinv) as H.
    destruct (open_position _ _ _ _ _ _ w) as [w' [[?|]|?]]; exact H.
  - pose proof (add_to_position_inv id d p s r w Hinv) as H.
    destruct (add_to_position _ _ _ _ _ w) as [w' [[|]|?]]; exact H.
  - pose proof (reduce_position_inv id d p s r w Hinv) as H.
    destruct (reduce_position _ _ _ _ _ w) as [w' [?|?]]; exact H.
  - pose proof (close_position_inv id d p r w Hinv) as H.
    destruct (close_position _ _ _ _ w) as [w' [?|?]]; exact H.
Qed.

Lemma run_inv ops w : ledger_invariant w -> ledger_invariant (fst (run ops w)).
Proof.
  revert w. induction ops as [|o ops IH]; intros w Hinv; [assumption|].
  cbn [run]. pose proof (call_inv o w Hinv) as H1.
  destruct (call o w) as [w1 out]. specialize (IH w1 H1).
  destruct (run ops w1) as [w2 outs]. exact IH.
Qed.

Lemma initial_world_inv capital maxpos tc frac :
  ledger_invariant (initial_world capital maxpos tc frac).
Proof. constructor; simpl; [constructor | tauto | tauto]. Qed.

(** ** Share conservation *)









(** ** [open_position]: refusal and success *)

Lemma can_open_false_iff self :
  can_open_position self = false <->
  (max_positions self <= Z.of_nat (length (open_roundtrips self)))%Z.
Proof. unfold can_open_position. apply Z.ltb_ge. Qed.

Lemma open_position_refused_iff ticker date price qty er md w :
  refused w (open_position ticker date price qty er md w) <->
  refusal_condition w price qty.
Proof.
  unfold refused, refusal_condition. rewrite open_position_run. cbv zeta.
  destruct (Qle_bool _ 0) eqn:Hs.
  { split; [intros _; left; now apply Qle_bool_iff | reflexivity]. }
  apply Qle_bool_gt in Hs.
  destruct (can_open_position _) eqn:Hcap; cbn [negb].
  2:{ split; [intros _; right; left; now apply can_open_false_iff | reflexivity]. }
  assert (Hcap' : ~ (max_positions (portfolio w)
                     <= Z.of_nat (length (open_roundtrips (portfolio w))))%Z).
  { rewrite <- can_open_false_iff. congruence. }
  destruct (calculate_entry_cost _ _ _) as [c|e] eqn:Hc.
  - destruct (Qgtb c _) eqn:Hgt.
    + split; [intros _|reflexivity]. right; right. exists c. split; [reflexivity|].
      now apply Qltb_lt.
    + split; [discriminate|]. apply Qltb_ge in Hgt.
      intros [H|[H|(c' & E & Hlt)]]; [lra | contradiction |].
      injection E as <-. lra.
  - split; [discriminate|].
    intros [H|[H|(c' & E & Hlt)]]; [lra | contradiction | discriminate].
Qed.

Lemma open_position_opens ticker date price qty er md w :
  ledger_invariant w -> ~ refusal_condition w price qty -> 0 < price ->
  opened w price qty (open_position ticker date price qty er md w).
Proof.
  intros Hinv Hno Hp.
  pose proof (open_position_refused_iff ticker date price qty er md w) as Hiff.
  pose proof (fresh_id_not_open w Hinv) as Hfresh.
  unfold opened, refused in *. rewrite open_position_run in *. cbv zeta in *.
  destruct (Qle_bool _ 0) eqn:Hs; [exfalso; now apply Hno, Hiff|].
  destruct (negb _); [exfalso; now apply Hno, Hiff|].
  destruct (calculate_entry_cost _ _ _) as [c|e] eqn:Hc.
  - destruct (Qgtb c _); [exfalso; now apply Hno, Hiff|].
    eexists c, _, _. cbn.
    repeat split; try reflexivity. now apply dict_set_fresh.
  - exfalso. unfold calculate_entry_cost in Hc. rewrite Hs in Hc.
    apply Qle_bool_gt in Hp. rewrite Hp in Hc. discriminate.
Qed.

Lemma open_position_bad_price ticker date price qty er md w :
  ~ refusal_condition w price qty -> price <= 0 ->
  open_position ticker date price qty er md w =
  (w, Raise (ValueError "Price must be positive")).
Proof.
  intros Hno Hp.
  pose proof (open_position_refused_iff ticker date price qty er md w) as Hiff.
  unfold refused in *. rewrite open_position_run in *. cbv zeta in *.
  destruct (Qle_bool _ 0) eqn:Hs; [exfalso; now apply Hno, Hiff|].
  destruct (negb _); [exfalso; now apply Hno, Hiff|].
  unfold calculate_entry_cost in *. rewrite Hs in *.
  apply Qle_bool_iff in Hp. rewrite Hp in *. reflexivity.
Qed.

(** C3, as stated, fails: asked to open 1 share at price 0 on a fresh
    portfolio with room and cash, [open_position] neither refuses nor opens;
    [calculate_entry_cost] raises. *)
Lemma C3_open_position_counterexample :
  ~ open_position_claim (initial_world 10000 5 (mkTransactionCost 0 0) true)
      "A" 0 0 1 (TimeBasedExit 30) None.
Proof.
  intros [_ H].
  assert (Hno : ~ refusal_condition
                  (initial_world 10000 5 (mkTransactionCost 0 0) true) 0 1).
  { intros [Hl|[Hl|(c & Hc & _)]].
    - vm_compute in Hl. now apply Hl.
    - vm_compute in Hl. now apply Hl.
    - vm_compute in Hc. discriminate. }
  destruct (H Hno) as (c & rt & t & Hc & _). vm_compute in Hc. discriminate.
Qed.

(** C3, amended.  In every world that satisfies the ledger invariant,
    [open_position] returns [None] with the world unchanged exactly when the
    rounded shares are [<= 0], or the portfolio is at capacity, or the entry
    cost exceeds the cash.  Otherwise, when the price is positive, it debits
    the entry cost, creates a round trip holding exactly one ["open"]
    transaction, registers it last in [open_roundtrips], leaves
    [closed_roundtrips] alone and appends that transaction to the log; and
    when the price is not positive it raises [ValueError] with the world
    unchanged. *)
Theorem C3_open_position_amended (w : World) (ticker : string) (date : Z)
    (price qty : Q) (er : ExitRule) (md : option Metadata) :
  ledger_invariant w ->
  let r := open_position ticker date price qty er md w in
  (refused w r <-> refusal_condition w price qty) /\
  (~ refusal_condition w price qty -> 0 < price -> opened w price qty r) /\
  (~ refusal_condition w price qty -> price <= 0 ->
   r = (w, Raise (ValueError "Price must be positive"))).
Proof.
  intros Hinv r. subst r. split; [apply open_position_refused_iff|]. split.
  - now apply open_position_opens.
  - apply open_position_bad_price.
Qed.

Lemma C3_open_position_amended_witness :
  let w := initial_world 10000 5 (mkTransactionCost 0 0) true in
  ledger_invariant w /\ ~ refusal_condition w 100 10 /\ 0 < 100 /\
  opened w 100 10 (open_position "A" 0 100 10 (TimeBasedExit 30) None w).
Proof.
  cbv zeta.
  assert (Hinv : ledger_invariant
                   (initial_world 10000 5 (mkTransactionCost 0 0) true))
    by apply initial_world_inv.
  assert (Hno : ~ refusal_condition
                  (initial_world 10000 5 (mkTransactionCost 0 0) true) 100 10).
  { intros [Hl|[Hl|(c & Hc & Hlt)]].
    - vm_compute in Hl. now apply Hl.
    - vm_compute in Hl. now apply Hl.
    - vm_compute in Hc. injection Hc as <-. vm_compute in Hlt. discriminate. }
  assert (Hp : 0 < 100) by reflexivity.
  split; [exact Hinv|]. split; [exact Hno|]. split; [exact Hp|].
  exact (proj1 (proj2 (C3_open_position_amended _ "A"%string 0%Z 100 10
                         (TimeBasedExit 30) None Hinv)) Hno Hp).
Defined.

(** ** Closure is final *)











(** ** [reduce_position] with a non-positive share count *)

Lemma exit_value_nonpositive_shares tc qty price :
  qty <= 0 ->
  calculate_exit_value tc qty price =
  Raise (ValueError "Shares must be positive").
Proof.
  intros Hq. unfold calculate_exit_value.
  apply Qle_bool_iff in Hq. now rewrite Hq.
Qed.

(** C10.  In a world that satisfies the ledger invariant, [reduce_position]
    on an open round trip with [shares <= 0] raises the [ValueError] of
    [TransactionCost.calculate_exit_value], and the world it leaves is the
    world it found: cash, the round trip and its transactions,
    [open_roundtrips], [closed_roundtrips] and the log are unchanged. *)
Theorem C10_reduce_nonpositive_shares (w : World) (id : nat) (rt : RoundTrip)
    (date : Z) (price qty : Q) (reason : string) :
  ledger_invariant w ->
  dict_get id (open_roundtrips (portfolio w)) = Some rt ->
  qty <= 0 ->
  calculate_exit_value (transaction_cost (portfolio w)) qty price =
    Raise (ValueError "Shares must be positive") /\
  reduce_position id date price qty reason w =
    (w, Raise (ValueError "Shares must be positive")).
Proof.
  intros Hinv Hget Hq.
  pose proof (exit_value_nonpositive_shares
                (transaction_cost (portfolio w)) qty price Hq) as Hx.
  split; [exact Hx|].
  rewrite reduce_position_run. cbv zeta. rewrite Hget.
  pose proof (inv_open w Hinv _ _ (dict_get_In _ _ _ Hget)) as (_ & Hpos & _).
  assert (Hle : Qgtb qty (remaining_shares rt) = false)
    by (apply Qltb_ge; lra).
  now rewrite Hle, Hx.
Qed.

Lemma C10_reduce_nonpositive_shares_witness :
  let w :=
    fst (run [OpOpen "A" 0 100 10 (TimeBasedExit 30) None]
           (initial_world 10000 5 (mkTransactionCost 1 (1 # 1000)) true)) in
  exists rt,
    ledger_invariant w /\
    dict_get 0 (open_roundtrips (portfolio w)) = Some rt /\
    -3 <= 0 /\
    reduce_position 0 1 110 (-3) "trim" w =
      (w, Raise (ValueError "Shares must be positive")).
Proof.
  cbv zeta.
  set (w := fst (run [OpOpen "A" 0 100 10 (TimeBasedExit 30) None]
                   (initial_world 10000 5 (mkTransactionCost 1 (1 # 1000)) true))).
  assert (Hinv : ledger_invariant w) by apply run_inv, initial_world_inv.
  eassert (Hget : dict_get 0 (open_roundtrips (portfolio w)) = Some _)
    by (vm_compute; reflexivity).
  assert (Hq : -3 <= 0) by (vm_compute; discriminate).
  eexists. split; [exact Hinv|]. split; [exact Hget|]. split; [exact Hq|].
  exact (proj2 (C10_reduce_nonpositive_shares w 0%nat _ 1%Z 110 (-3)
                  "trim"%string Hinv Hget Hq)).
Defined.

(** ** [CompositeExitRule] *)

Lemma should_exit_composite rules rt d p s :
  should_exit (CompositeExitRule rules) rt d p s = composite_loop rules rt d p s.
Proof.
  cbn [should_exit]. revert s.
  induction rules as [|[rule portion] rest IH]; intros s; [reflexivity|].
  cbn [composite_loop].
  destruct (should_exit rule rt d p s) as [s1 [[fires x] reason]].
  destruct fires; [reflexivity | apply IH].
Qed.

Lemma composite_first_fire rt d p pre rule portion post s s1 s2 x reason :
  all_skip rt d p pre s s1 ->
  should_exit rule rt d p s1 = (s2, (true, x, reason)) ->
  composite_loop (pre ++ (rule, portion) :: post) rt d p s =
  (s2, (true, portion, reason)).
Proof.
  intros Hskip Hfire. induction Hskip as [s|r q rest s sa sb y rs Hr Hrest IH].
  - cbn [app composite_loop]. now rewrite Hfire.
  - cbn [app composite_loop]. rewrite Hr. now apply IH.
Qed.

Lemma composite_none_fire rt d p rules s s' :
  all_skip rt d p rules s s' ->
  composite_loop rules rt d p s = (s', no_exit).
Proof.
  intros Hskip. induction Hskip as [s|r q rest s sa sb y rs Hr Hrest IH].
  - reflexivity.
  - cbn [composite_loop]. now rewrite Hr.
Qed.

Lemma composite_cases rt d p rules s :
  (exists pre rule portion post s1 s2 x reason,
     rules = pre ++ (rule, portion) :: post /\
     all_skip rt d p pre s s1 /\
     should_exit rule rt d p s1 = (s2, (true, x, reason))) \/
  (exists s', all_skip rt d p rules s s').
Proof.
  revert s. induction rules as [|[rule portion] rest IH]; intros s.
  - right. exists s. constructor.
  - destruct (should_exit rule rt d p s) as [s1 [[fires x] reason]] eqn:Hr.
    destruct fires.
    + left. exists [], rule, portion, rest, s, s1, x, reason.
      repeat split; [constructor | exact Hr].
    + destruct (IH s1) as [(pre & r & q & post & sa & sb & y & rs & E & Hs & Hf)
                          |(s' & Hs)].
      * left. exists ((rule, portion) :: pre), r, q, post, sa, sb, y, rs.
        repeat split; [now rewrite E | | exact Hf].
        econstructor; eassumption.
      * right. exists s'. econstructor; eassumption.
Qed.

(** C6 ([CompositeExitRule]).  For every list of (rule, portion) pairs:
    if the rules before some slot all decline, asked in list order, and the
    rule of that slot fires, [should_exit] returns [True], the portion of the
    slot (not the portion the rule returned) and the rule's reason, and asks
    no later rule; if all rules decline it returns [(False, 0.0, "")]; one of
    the two always is the case.  Constructing the rule from an empty list
    raises [ValueError].  For [[(StopLossExit(0.08), 1.0),
    (TimeBasedExit(30), 1.0)]] and a position entered at $100 on day 0: at
    $90 on day 10 it exits with ["stop_loss"], at $100 on day 35 with
    ["time_exit"]. *)
Theorem C6_composite_exit_rule :
  (forall rt d p pre rule portion post s s1 s2 x reason,
     all_skip rt d p pre s s1 ->
     should_exit rule rt d p s1 = (s2, (true, x, reason)) ->
     should_exit (CompositeExitRule (pre ++ (rule, portion) :: post)) rt d p s
     = (s2, (true, portion, reason))) /\
  (forall rt d p rules s s',
     all_skip rt d p rules s s' ->
     should_exit (CompositeExitRule rules) rt d p s = (s', (false, 0, ""%string))) /\
  (forall rt d p rules s,
     (exists pre rule portion post s1 s2 x reason,
        rules = pre ++ (rule, portion) :: post /\
        all_skip rt d p pre s s1 /\
        should_exit rule rt d p s1 = (s2, (true, x, reason))) \/
     (exists s', all_skip rt d p rules s s')) /\
  CompositeExitRule_init [] =
    Raise (ValueError "CompositeExitRule requires at least one rule") /\
  (forall r rs, CompositeExitRule_init (r :: rs) = Ok (CompositeExitRule (r :: rs))) /\
  (exists stop time rule rt,
     StopLossExit_init (8 # 100) = Ok stop /\
     TimeBasedExit_init 30 = Ok time /\
     CompositeExitRule_init [(stop, 1); (time, 1)] = Ok rule /\
     position_at_100 rule = Some rt /\
     should_exit rule rt 10 90 ∅ = (∅, (true, 1, "stop_loss"%string)) /\
     should_exit rule rt 35 100 ∅ = (∅, (true, 1, "time_exit"%string))).
Proof.
  split; [|split; [|split; [|split; [|split]]]].
  - intros. rewrite should_exit_composite. eapply composite_first_fire; eassumption.
  - intros. rewrite should_exit_composite. now apply composite_none_fire.
  - intros. apply composite_cases.
  - reflexivity.
  - reflexivity.
  - eexists _, _, _, _.
    split; [reflexivity|]. split; [reflexivity|]. split; [reflexivity|].
    split; [vm_compute; reflexivity|].
    split; vm_compute; reflexivity.
Qed.

Lemma C6_composite_exit_rule_witness :
  exists rt,
    position_at_100 (TimeBasedExit 30) = Some rt /\
    all_skip rt 35 100 [(StopLossExit (8 # 100), 1)] ∅ ∅ /\
    should_exit (ProfitTargetExit (1 # 10) (1 # 4)) rt 35 120 ∅ =
      (∅, (true, 1 # 4, "profit_target"%string)) /\
    should_exit
      (CompositeExitRule
         ([(StopLossExit (8 # 100), 1)] ++
          (ProfitTargetExit (1 # 10) (1 # 4), 1 # 2) :: [(TimeBasedExit 30, 1)]))
      rt 35 120 ∅ = (∅, (true, 1 # 2, "profit_target"%string)).
Proof.
  eassert (Hpos : position_at_100 (TimeBasedExit 30) = Some _)
    by (vm_compute; reflexivity).
  lazymatch type of Hpos with
  | _ = Some ?r =>
      assert (Hskip : all_skip r 35 120 [(StopLossExit (8 # 100), 1)] ∅ ∅)
        by (econstructor; [vm_compute; reflexivity | constructor]);
      assert (Hskip' : all_skip r 35 100 [(StopLossExit (8 # 100), 1)] ∅ ∅)
        by (econstructor; [vm_compute; reflexivity | constructor]);
      assert (Hfire : should_exit (ProfitTargetExit (1 # 10) (1 # 4)) r 35 120 ∅ =
                      (∅, (true, 1 # 4, "profit_target"%string)))
        by (vm_compute; reflexivity)
  end.
  eexists. split; [exact Hpos|]. split; [exact Hskip'|]. split; [exact Hfire|].
  exact (proj1 C6_composite_exit_rule _ _ _ _ _ (1 # 2)
           [(TimeBasedExit 30, 1)] _ _ _ _ _ Hskip Hfire).
Defined.

(** ** [TrailingStopExit] *)

Lemma trailing_should_exit_spec pct rt price (peaks : gmap nat Q) :
  let start :=
    match peaks !! rt_id rt with
    | Some pk => pk
    | None => average_entry_price rt
    end in
  let peak := if Qgtb price start then price else start in
  trailing_should_exit pct rt price peaks =
  (<[rt_id rt := peak]> peaks,
   if Qltb 0 peak && Qgeb ((peak - price) / peak) pct
   then (true, 1, "trailing_stop"%string) else no_exit).
Proof.
  cbv zeta. unfold trailing_should_exit, Qltb.
  destruct (peaks !! rt_id rt) as [pk|] eqn:Hpk.
  - rewrite Hpk. cbn [default from_option id].
    destruct (Qgtb price pk) eqn:Hgt.
    + rewrite lookup_insert_eq. cbn [default from_option id].
      destruct (Qle_bool price 0); cbn [negb andb]; [reflexivity|].
      destruct (Qgeb _ pct); reflexivity.
    + rewrite Hpk. cbn [default from_option id]. rewrite (insert_id _ _ _ Hpk).
      destruct (Qle_bool pk 0); cbn [negb andb]; [reflexivity|].
      destruct (Qgeb _ pct); reflexivity.
  - rewrite lookup_insert_eq. cbn [default from_option id].
    destruct (Qgtb price (average_entry_price rt)) eqn:Hgt.
    + rewrite lookup_insert_eq, insert_insert_eq. cbn [default from_option id].
      destruct (Qle_bool price 0); cbn [negb andb]; [reflexivity|].
      destruct (Qgeb _ pct); reflexivity.
    + rewrite lookup_insert_eq. cbn [default from_option id].
      destruct (Qle_bool (average_entry_price rt) 0); cbn [negb andb];
        [reflexivity|].
      destruct (Qgeb _ pct); reflexivity.
Qed.

(** C7 ([TrailingStopExit]).  One evaluation on a round trip reads the peak
    stored for the round trip's id in the rule's own dictionary, or the
    average entry price when there is none yet; stores [max(peak, price)]
    under that id, whether the rule fires or not, leaving other ids alone;
    the stored peak is never below the peak read; and the call returns
    [(True, 1.0, "trailing_stop")] exactly when the stored peak is positive
    and [(peak - price) / peak >= trailing_pct], otherwise [(False, 0.0, "")].
    With [trailing_pct = 0.10] and an entry at $100: after a price of 150 the
    stored peak is 150; from there a price of 135 fires and a price of 137
    does not. *)
Theorem C7_trailing_stop :
  (forall (self_ref : nat) (trailing_pct : Q) (rt : RoundTrip) (date : Z)
          (price : Q) (store : gmap nat (gmap nat Q)),
     let peaks := default ∅ (store !! self_ref) in
     let start :=
       match peaks !! rt_id rt with
       | Some pk => pk
       | None => average_entry_price rt
       end in
     let peak := if Qgtb price start then price else start in
     let fires := Qltb 0 peak && Qgeb ((peak - price) / peak) trailing_pct in
     should_exit (TrailingStopExit self_ref trailing_pct) rt date price store =
       (<[self_ref := <[rt_id rt := peak]> peaks]> store,
        if fires then (true, 1, "trailing_stop"%string)
        else (false, 0, ""%string)) /\
     start <= peak /\ price <= peak /\ (peak = start \/ peak = price) /\
     (fires = true <-> 0 < peak /\ trailing_pct <= (peak - price) / peak) /\
     (forall other, other <> rt_id rt ->
        (<[rt_id rt := peak]> peaks) !! other = peaks !! other)) /\
  (exists w1 rule rt s1,
     TrailingStopExit_init (1 # 10)
       (initial_world 10000 5 (mkTransactionCost 0 0) true) = (w1, Ok rule) /\
     position_at_100 rule = Some rt /\
     average_entry_price rt == 100 /\
     should_exit rule rt 1 150 (peak_store w1) = (s1, (false, 0, ""%string)) /\
     s1 !! 0%nat = Some {[rt_id rt := 150]} /\
     should_exit rule rt 2 135 s1 = (s1, (true, 1, "trailing_stop"%string)) /\
     should_exit rule rt 2 137 s1 = (s1, (false, 0, ""%string))).
Proof.
  split.
  - intros ref pct rt d price store peaks start peak fires.
    split; [|split; [|split; [|split; [|split]]]].
    + cbn [should_exit]. fold peaks.
      pose proof (trailing_should_exit_spec pct rt price peaks) as Hs.
      cbv zeta in Hs. fold start in Hs. fold peak in Hs. fold fires in Hs.
      rewrite Hs. reflexivity.
    + subst peak. destruct (Qgtb price start) eqn:Hgt.
      * apply Qltb_lt in Hgt. lra.
      * lra.
    + subst peak. destruct (Qgtb price start) eqn:Hgt.
      * lra.
      * apply Qltb_ge in Hgt. exact Hgt.
    + subst peak. destruct (Qgtb price start); auto.
    + subst fires. rewrite andb_true_iff, Qltb_lt. unfold Qgeb.
      now rewrite Qle_bool_iff.
    + intros other Hne. now apply lookup_insert_ne.
  - eexists _, _, _, _.
    split; [vm_compute; reflexivity|].
    split; [vm_compute; reflexivity|].
    split; [vm_compute; reflexivity|].
    split; [vm_compute; reflexivity|].
    split; [vm_compute; reflexivity|].
    split; vm_compute; reflexivity.
Qed.

(** ** Signal generation *)

Lemma collect_rules_eq (f : EntryRuleObj -> option Signal) rules acc :
  fold_left
    (fun signals rule =>
       match f rule with
       | Some signal => signals ++ [signal]
       | None => signals
       end) rules acc = acc ++ omap f rules.
Proof.
  revert acc. induction rules as [|r rules IH]; intros acc; cbn [fold_left].
  - now rewrite app_nil_r.
  - rewrite IH. cbn [omap list_omap]. destruct (f r) as [sg|].
    + now rewrite <- app_assoc.
    + reflexivity.
Qed.

Lemma collect_universe_eq self date pf tickers acc :
  fold_left
    (fun signals ticker =>
       fold_left
         (fun signals rule =>
            match should_enter rule ticker date pf with
            | Some signal => signals ++ [signal]
            | None => signals
            end)
         (entry_rules self) signals)
    tickers acc =
  acc ++ flat_map
           (fun ticker =>
              omap (fun rule => should_enter rule ticker date pf)
                (entry_rules self))
           tickers.
Proof.
  revert acc. induction tickers as [|t ts IH]; intros acc;
    cbn [fold_left flat_map].
  - now rewrite app_nil_r.
  - rewrite IH, (collect_rules_eq (fun rule => should_enter rule t date pf)).
    now rewrite <- app_assoc.
Qed.

Lemma collect_signals_discovery self date pf :
  collect_signals self date pf = discovery_order self date pf.
Proof. unfold collect_signals. now rewrite collect_universe_eq. Qed.

Lemma insert_desc_perm s l : Permutation (insert_desc s l) (s :: l).
Proof.
  induction l as [|x l IH]; cbn [insert_desc]; [reflexivity|].
  destruct (Qltb (priority x) (priority s)); [reflexivity|].
  rewrite IH. apply perm_swap.
Qed.

Lemma insert_desc_sorted s l :
  StronglySorted priority_ge l -> StronglySorted priority_ge (insert_desc s l).
Proof.
  induction l as [|x l IH]; cbn [insert_desc]; intros Hs.
  - repeat constructor.
  - apply StronglySorted_inv in Hs as [Hl Hx].
    destruct (Qltb (priority x) (priority s)) eqn:Hlt.
    + apply Qltb_lt in Hlt. constructor; [constructor; assumption|].
      constructor; [unfold priority_ge; lra|].
      eapply Forall_impl; [exact Hx|]. unfold priority_ge. intros y Hy.
      cbv beta in Hy. lra.
    + apply Qltb_ge in Hlt. constructor; [auto|].
      rewrite (insert_desc_perm s l). constructor; assumption.
Qed.

Lemma with_priority_below q s l :
  Qeq_bool (priority s) q = true ->
  Forall (fun y => priority y < priority s) l -> with_priority q l = [].
Proof.
  intros Hq Hl. apply Qeq_bool_iff in Hq. unfold with_priority.
  induction Hl as [|y l Hy _ IH]; [reflexivity|].
  rewrite filter_cons_False; [exact IH|].
  rewrite Qeq_bool_iff. lra.
Qed.

Lemma insert_desc_stable q s l :
  StronglySorted priority_ge l ->
  with_priority q (insert_desc s l) = with_priority q l ++ with_priority q [s].
Proof.
  unfold with_priority at 3.
  induction l as [|x l IH]; cbn [insert_desc]; intros Hs.
  - reflexivity.
  - apply StronglySorted_inv in Hs as [Hl Hx].
    destruct (Qltb (priority x) (priority s)) eqn:Hlt.
    + apply Qltb_lt in Hlt.
      destruct (Qeq_bool (priority s) q) eqn:Hq.
      * assert (Hbelow : Forall (fun y => priority y < priority s) (x :: l)).
        { constructor; [exact Hlt|]. eapply Forall_impl; [exact Hx|].
          unfold priority_ge. intros y Hy. cbv beta in Hy. lra. }
        unfold with_priority at 1. rewrite filter_cons_True by exact Hq.
        fold (with_priority q (x :: l)).
        rewrite (with_priority_below q s (x :: l) Hq Hbelow).
        rewrite filter_cons_True by exact Hq. reflexivity.
      * unfold with_priority at 1.
        rewrite !(filter_cons_False _ s) by (rewrite Hq; discriminate).
        rewrite filter_nil, app_nil_r. reflexivity.
    + unfold with_priority in *. rewrite !(filter_cons _ x).
      destruct (decide _); rewrite IH by assumption; reflexivity.
Qed.

Lemma sort_by_priority_desc_spec l acc :
  StronglySorted priority_ge acc ->
  let r := fold_left (fun sorted s => insert_desc s sorted) l acc in
  StronglySorted priority_ge r /\ Permutation r (acc ++ l) /\
  forall q, with_priority q r = with_priority q acc ++ with_priority q l.
Proof.
  revert acc. induction l as [|s l IH]; intros acc Hacc; cbn [fold_left].
  - cbv zeta. rewrite app_nil_r. repeat split; auto.
    intros q. unfold with_priority. now rewrite filter_nil, app_nil_r.
  - destruct (IH (insert_desc s acc) (insert_desc_sorted s acc Hacc))
      as (Hs & Hp & Hst).
    cbv zeta. split; [exact Hs|]. split.
    + rewrite Hp, insert_desc_perm.
      change (s :: acc) with ([s] ++ acc).
      change (acc ++ s :: l) with (acc ++ [s] ++ l).
      rewrite !app_assoc. apply Permutation_app_tail, Permutation_app_comm.
    + intros q. rewrite Hst, insert_desc_stable by assumption.
      unfold with_priority. rewrite <- app_assoc, <- filter_app. reflexivity.
Qed.

(** C8 (signal generation).  [generate_signals] asks every entry rule for
    every ticker, keeps every signal returned, and returns the kept signals
    (a permutation of them, nothing lost or added) sorted by priority,
    highest first; the signals of any one priority come out in their
    discovery order: universe order of the tickers, then rule order. *)
Theorem C8_generate_signals (self : Strategy) (current_date : Z)
    (portfolio : option Portfolio) :
  let found := discovery_order self current_date portfolio in
  let signals := generate_signals self current_date portfolio in
  collect_signals self current_date portfolio = found /\
  Permutation signals found /\
  StronglySorted priority_ge signals /\
  forall q, with_priority q signals = with_priority q found.
Proof.
  cbv zeta. unfold generate_signals, sort_by_priority_desc.
  rewrite collect_signals_discovery.
  destruct (sort_by_priority_desc_spec
              (discovery_order self current_date portfolio) []
              (SSorted_nil _)) as (Hs & Hp & Hst).
  repeat split; auto.
Qed.

Example generate_signals_stable :
  let rule q tag := EntryRule (fun _ _ _ => Some 1) (fun _ => true) tag q in
  let self :=
    {| name := "s"; entry_rules := [rule 1 "low"; rule 2 "high"]%string;
       exit_rules := TimeBasedExit 30;
       position_sizer := FixedShares 1; universe := ["A"; "B"]%string |} in
  map (fun s => (sig_ticker s, signal_type s)) (generate_signals self 0 None) =
  [("A", "high"); ("B", "high"); ("A", "low"); ("B", "low")]%string.
Proof. vm_compute. reflexivity. Qed.

(** ** Position sizers *)

Lemma calculate_shares_bad_price s price cash pv pf tk :
  price <= 0 ->
  calculate_shares s price cash pv pf tk =
  Raise (ValueError "price must be positive").
Proof.
  intros Hp. unfold calculate_shares. apply Qle_bool_iff in Hp.
  now rewrite Hp.
Qed.

Lemma Qdiv_pos a b : 0 < a -> 0 < b -> 0 <= a / b.
Proof.
  intros Ha Hb. apply Qlt_le_weak, Qlt_shift_div_l; [exact Hb | lra].
Qed.


(** A sizer that returns 0 for a non-positive amount and the amount over the
    price otherwise: both branches give a non-negative share count. *)
Ltac size_by_amount :=
  match goal with
  | |- context [Qle_bool ?a 0] =>
      let H := fresh "Ha" in
      destruct (Qle_bool a 0) eqn:H;
      [ eexists; split; [reflexivity | lra]
      | apply Qle_bool_gt in H; eexists; split;
        [reflexivity | now apply Qdiv_pos] ]
  end.

(** The contract of [calculate_shares] wherever the divisor of [EqualWeight]
    is not zero. *)
Lemma calculate_shares_contract s price cash pv pf tk :
  sizer_constructed s -> 0 < price ->
  (forall n p, s = EqualWeight n -> pf = Some p -> max_positions p <> 0%Z) ->
  exists sh, calculate_shares s price cash pv pf tk = Ok sh /\ 0 <= sh.
Proof.
  intros Hc Hp Hz. unfold calculate_shares.
  apply Qle_bool_gt in Hp as Hp'. rewrite Hp'.
  destruct s as [a|pc|pc|n|n|b t m]; cbv zeta; try size_by_amount.
  - assert (Hmp : match pf with
                  | Some p => max_positions p
                  | None => n
                  end <> 0%Z).
    { destruct pf as [p|]; [now apply (Hz n) |].
      unfold sizer_constructed, EqualWeight_init in Hc.
      destruct (n <=? 0)%Z eqn:Hn; [discriminate | lia]. }
    apply Z.eqb_neq in Hmp. rewrite Hmp. size_by_amount.
  - unfold sizer_constructed, FixedShares_init in Hc.
    destruct (Qle_bool n 0) eqn:Hn; [discriminate|]. apply Qle_bool_gt in Hn.
    destruct (Qgtb _ cash); eexists; (split; [reflexivity | lra]).
Qed.

(** C9, at the input where the code breaks the contract: [EqualWeight] sizing
    against a [Portfolio] built with [max_positions = 0], at a positive price,
    divides by zero. *)
Theorem C9_equal_weight_zero_capacity :
  let portfolio := Portfolio_init 10000 0 (mkTransactionCost 0 (1 # 1000)) true in
  let sizer := EqualWeight 10 in
  sizer_constructed sizer /\ 0 < 100 /\
  calculate_shares sizer 100 10000 10000 (Some portfolio) (Some "A"%string) =
  Raise ZeroDivisionError.
Proof. cbv zeta. repeat split. Qed.

(** ** One trading day: what each phase does to the log *)



Lemma bind_run {A B} (m : M A) (k : A -> M B) w :
  bind m k w =
  match m w with
  | (w', Ok a) => k a w'
  | (w', Raise e) => (w', Raise e)
  end.
Proof. reflexivity. Qed.


Lemma calculate_portfolio_value_pure date prices w :
  exists v, _calculate_portfolio_value date prices w = (w, Ok v).
Proof. eexists. reflexivity. Qed.












(** A day on which the exit frees the only slot and the entry takes it: a
    portfolio with one slot holds A since day 0 under a 5-day time exit; on day
    5 the rule signals B. *)
Example exit_frees_slot_same_day :
  let rule :=
    EntryRule (fun t _ _ => if String.eqb t "B" then Some 1 else None)
      (fun _ => true) "buy_b" 1 in
  let bt :=
    {| strategy :=
         {| name := "s"; entry_rules := [rule]; exit_rules := TimeBasedExit 5;
            position_sizer := FixedShares 10; universe := ["A"; "B"]%string |};
       price_data := fun _ =>
         Some (fun t => if String.eqb t "A" then Some 100
                        else if String.eqb t "B" then Some 50 else None) |} in
  let w0 :=
    fst (run [OpOpen "A" 0 100 10 (TimeBasedExit 5) None]
           (initial_world 10000 1 (mkTransactionCost 0 0) true)) in
  let w1 := fst (_process_day bt 5 w0) in
  can_open_position (portfolio w0) = false /\
  map rt_ticker (dict_values (open_roundtrips (portfolio w1))) = ["B"%string] /\
  map rt_ticker (closed_roundtrips (portfolio w1)) = ["A"%string] /\
  map transaction_type (log_of w1) = ["open"; "reduce"; "open"]%string /\
  Qred (cash (portfolio w1)) = 9500.
Proof. vm_compute. repeat split. Qed.

(** * Further properties of the code *)

(** ** Case analysis of one ledger call

    [call_cases o] opens the call [o] on the world [w] into its outcomes:
    every refusal and raise, where the world is unchanged, and every
    success. *)

Ltac open_cases :=
  rewrite open_position_run; cbv zeta;
  destruct (Qle_bool _ 0) eqn:Hs;
  [|destruct (can_open_position _) eqn:Hcap; cbn [negb];
    [destruct (calculate_entry_cost _ _ _) as [c|e] eqn:Hc;
     [destruct (Qgtb c _) eqn:Hgt|]|]].

Ltac add_cases :=
  rewrite add_to_position_run; cbv zeta;
  destruct (dict_get _ _) as [rt|] eqn:Hget;
  [destruct (Qle_bool _ 0) eqn:Hs;
   [|destruct (calculate_entry_cost _ _ _) as [c|e] eqn:Hc;
     [destruct (Qgtb c _) eqn:Hgt|]]|].

Ltac reduce_cases :=
  rewrite reduce_position_run; cbv zeta;
  destruct (dict_get _ _) as [rt|] eqn:Hget;
  [destruct (Qgtb _ (remaining_shares rt)) eqn:Hle;
   [|destruct (calculate_exit_value _ _ _) as [c|e] eqn:Hc;
     [destruct (Qeq_bool _ 0) eqn:Hz|]]|].

Ltac close_cases :=
  rewrite close_position_run;
  destruct (dict_get _ _) as [rt0|] eqn:Hget0;
  [rewrite reduce_position_run; cbv zeta; rewrite Hget0;
   destruct (Qgtb _ (remaining_shares rt0)) eqn:Hle;
   [|destruct (calculate_exit_value _ _ _) as [c|e] eqn:Hc;
     [destruct (Qeq_bool _ 0) eqn:Hz|]]|].

Ltac call_cases o :=
  destruct o as [tk d p s er md | id d p s r | id d p s r | id d p r];
  unfold call; [open_cases | add_cases | reduce_cases | close_cases];
  cbn [fst snd portfolio uuid_next peak_store with_log with_open with_cash
       with_closed open_roundtrips closed_roundtrips transaction_log cash
       max_positions transaction_cost fractional_shares starting_capital
       equity_history].

(** ** The capacity bound *)

Lemma length_dict_set {V} (d : list (nat * V)) k v :
  (length (dict_set k v d) <= S (length d))%nat.
Proof.
  induction d as [|[k' v'] d IH]; simpl; [lia|].
  destruct (Nat.eqb k k'); simpl; lia.
Qed.

Lemma length_dict_set_present {V} (d : list (nat * V)) k v v' :
  dict_get k d = Some v' -> length (dict_set k v d) = length d.
Proof.
  intros H. pose proof (dict_keys_set_present d k v v' H) as Hk.
  apply (f_equal (@length nat)) in Hk. unfold dict_keys in Hk.
  now rewrite !length_map in Hk.
Qed.

Lemma length_dict_del {V} (d : list (nat * V)) k :
  (length (dict_del k d) <= length d)%nat.
Proof.
  induction d as [|[k' v'] d IH]; simpl; [lia|].
  destruct (Nat.eqb k k'); simpl; lia.
Qed.

Lemma call_within_capacity o w :
  within_capacity w ->
  within_capacity (fst (call o w)) /\
  max_positions (portfolio (fst (call o w))) = max_positions (portfolio w).
Proof.
  unfold within_capacity. intros Hcapw.
  call_cases o; try (split; [assumption | reflexivity]);
    (split; [|reflexivity]);
    try rewrite (length_dict_set_present _ _ _ _ Hget);
    try rewrite (length_dict_set_present _ _ _ _ Hget0);
    try assumption.
  - unfold can_open_position in Hcap. apply Z.ltb_lt in Hcap.
    match goal with
    | |- context [dict_set ?k ?v ?d0] => pose proof (length_dict_set d0 k v)
    end. lia.
  - match goal with
    | |- context [dict_del ?k ?d0] => pose proof (length_dict_del d0 k) as Hd
    end.
    rewrite (length_dict_set_present _ _ _ _ Hget) in Hd. lia.
  - match goal with
    | |- context [dict_del ?k ?d0] => pose proof (length_dict_del d0 k) as Hd
    end.
    rewrite (length_dict_set_present _ _ _ _ Hget0) in Hd. lia.
Qed.

Lemma run_preserves (P : World -> Prop) :
  (forall o w, P w -> P (fst (call o w))) ->
  forall ops w, P w -> P (fst (run ops w)).
Proof.
  intros Hstep ops. induction ops as [|o ops IH]; intros w Hw; [exact Hw|].
  cbn [run]. pose proof (Hstep o w Hw) as H1.
  destruct (call o w) as [w1 out]. cbn [fst] in H1. specialize (IH w1 H1).
  destruct (run ops w1) as [w2 outs]. exact IH.
Qed.

(** X1 (capacity).  A portfolio built with [max_positions >= 0] never holds
    more than [max_positions] open round trips, whatever ledger calls are
    issued, and no call changes [max_positions]. *)
Theorem X1_capacity_bound (capital : Q) (maxpos : Z) (tc : TransactionCost)
    (frac : bool) (ops : list Op) :
  (0 <= maxpos)%Z ->
  let w := fst (run ops (initial_world capital maxpos tc frac)) in
  (Z.of_nat (length (open_roundtrips (portfolio w))) <= maxpos)%Z /\
  max_positions (portfolio w) = maxpos.
Proof.
  intros Hm w.
  assert (H : within_capacity w /\ max_positions (portfolio w) = maxpos).
  { subst w.
    apply (run_preserves
             (fun w => within_capacity w /\ max_positions (portfolio w) = maxpos)).
    - intros o w [Hc Hmax]. destruct (call_within_capacity o w Hc) as [Hc' E].
      split; [exact Hc' | congruence].
    - split; [unfold within_capacity; cbn; lia | reflexivity]. }
  destruct H as [Hc Hmax]. split; [|exact Hmax].
  unfold within_capacity in Hc. now rewrite Hmax in Hc.
Qed.

Lemma X1_capacity_bound_witness :
  let ops := [OpOpen "A" 0 100 10 (TimeBasedExit 30) None;
              OpOpen "B" 0 50 10 (TimeBasedExit 30) None;
              OpOpen "C" 0 20 10 (TimeBasedExit 30) None] in
  let w := fst (run ops (initial_world 10000 2 (mkTransactionCost 0 0) true)) in
  (0 <= 2)%Z /\
  (Z.of_nat (length (open_roundtrips (portfolio w))) <= 2)%Z /\
  snd (run ops (initial_world 10000 2 (mkTransactionCost 0 0) true)) =
    [Succeeded; Succeeded; Refused].
Proof.
  cbv zeta. assert (Hm : (0 <= 2)%Z) by lia.
  split; [exact Hm|]. split.
  - exact (proj1 (X1_capacity_bound 10000 2 (mkTransactionCost 0 0) true _ Hm)).
  - vm_compute. reflexivity.
Defined.

(** ** Cash *)

Lemma exit_value_nonneg tc s p v :
  commission tc <= 0 -> slippage_pct tc <= 1 ->
  calculate_exit_value tc s p = Ok v -> 0 <= v.
Proof.
  intros Hcm Hsl Hv. pose proof (exit_value_positive_shares _ _ _ _ Hv) as [Hs Hp].
  unfold calculate_exit_value in Hv.
  destruct (Qle_bool s 0); [discriminate|].
  destruct (Qle_bool p 0); [discriminate|]. injection Hv as <-.
  assert (Hg : 0 < s * p) by (apply Qmult_lt_0_compat; assumption).
  assert (Hm : 0 <= s * p * (1 - slippage_pct tc))
    by (apply Qmult_le_0_compat; lra).
  lra.
Qed.

Lemma call_cash_nonneg o w :
  commission (transaction_cost (portfolio w)) <= 0 ->
  slippage_pct (transaction_cost (portfolio w)) <= 1 ->
  0 <= cash (portfolio w) ->
  0 <= cash (portfolio (fst (call o w))) /\
  transaction_cost (portfolio (fst (call o w))) = transaction_cost (portfolio w).
Proof.
  intros Hcm Hsl Hcash.
  call_cases o; try (split; [assumption | reflexivity]);
    (split; [|reflexivity]);
    try (apply Qltb_ge in Hgt; lra);
    pose proof (exit_value_nonneg _ _ _ _ Hcm Hsl Hc); lra.
Qed.

(** X2 (cash stays non-negative when sales cannot cost money).  A portfolio
    built with non-negative capital, no commission and a slippage of at most
    100% never has negative cash, whatever ledger calls are issued: a buy
    is refused when its cost exceeds the cash, and a sale then never yields a
    negative amount. *)
Theorem X2_cash_nonnegative (capital : Q) (maxpos : Z) (tc : TransactionCost)
    (frac : bool) (ops : list Op) :
  0 <= capital -> commission tc <= 0 -> slippage_pct tc <= 1 ->
  0 <= cash (portfolio (fst (run ops (initial_world capital maxpos tc frac)))).
Proof.
  intros Hcap Hcm Hsl.
  apply (run_preserves
           (fun w => 0 <= cash (portfolio w) /\
                     transaction_cost (portfolio w) = tc)).
  - intros o w [Hc Htc]. rewrite <- Htc in Hcm, Hsl.
    destruct (call_cash_nonneg o w Hcm Hsl Hc) as [Hc' E].
    split; [exact Hc' | congruence].
  - split; [exact Hcap | reflexivity].
Qed.

Lemma X2_cash_nonnegative_witness :
  let tc := mkTransactionCost 0 (1 # 1000) in
  let ops := [OpOpen "A" 0 100 99 (TimeBasedExit 30) None;
              OpClose 0 1 1 "crash"] in
  0 <= 10000 /\ commission tc <= 0 /\ slippage_pct tc <= 1 /\
  0 <= cash (portfolio (fst (run ops (initial_world 10000 5 tc true)))).
Proof.
  cbv zeta.
  assert (H1 : 0 <= 10000) by (vm_compute; discriminate).
  assert (H2 : commission (mkTransactionCost 0 (1 # 1000)) <= 0)
    by (vm_compute; discriminate).
  assert (H3 : slippage_pct (mkTransactionCost 0 (1 # 1000)) <= 1)
    by (vm_compute; discriminate).
  split; [exact H1|]. split; [exact H2|]. split; [exact H3|].
  exact (X2_cash_nonnegative 10000 5 (mkTransactionCost 0 (1 # 1000)) true _
           H1 H2 H3).
Defined.

(** With a commission the guarantee is gone: selling what was bought for
    $100 at a price of $1 under a $5 commission leaves cash below zero. *)
Example sale_can_overdraw :
  let tc := mkTransactionCost 5 0 in
  let ops := [OpOpen "A" 0 100 1 (TimeBasedExit 30) None;
              OpClose 0 1 1 "crash"] in
  snd (run ops (initial_world 105 5 tc true)) = [Succeeded; Succeeded] /\
  Qred (cash (portfolio (fst (run ops (initial_world 105 5 tc true))))) = -4.
Proof. vm_compute. split; reflexivity. Qed.

(** ** What the log holds *)

Lemma call_logged o w :
  exists new,
    transaction_log (portfolio (fst (call o w))) =
      transaction_log (portfolio w) ++ new /\
    Forall (logged_by (transaction_cost (portfolio w))) new /\
    transaction_cost (portfolio (fst (call o w))) =
      transaction_cost (portfolio w).
Proof.
  call_cases o;
    try (exists []; rewrite app_nil_r; repeat split; constructor);
    (eexists [_]; split; [reflexivity|]; split; [|reflexivity];
     constructor; [|constructor]; unfold logged_by; cbn [shares price
       transaction_type net_amount]).
  - destruct (entry_cost_positive_shares _ _ _ _ Hc). eauto 10.
  - destruct (entry_cost_positive_shares _ _ _ _ Hc). eauto 10.
  - destruct (exit_value_positive_shares _ _ _ _ Hc). eauto 10.
  - destruct (exit_value_positive_shares _ _ _ _ Hc). eauto 10.
  - destruct (exit_value_positive_shares _ _ _ _ Hc). eauto 10.
  - destruct (exit_value_positive_shares _ _ _ _ Hc). eauto 10.
Qed.

(** X3 (the transaction log).  Every transaction in the log of a portfolio,
    after any ledger calls from its construction, has positive shares and a
    positive price; it is an "open" or "add" whose [net_amount] is minus the
    entry cost of its shares at its price, or a "reduce" whose [net_amount]
    is their exit value.  No transaction is ever typed "close":
    [close_position] logs a "reduce". *)
Theorem X3_log_well_formed (capital : Q) (maxpos : Z) (tc : TransactionCost)
    (frac : bool) (ops : list Op) :
  let w := fst (run ops (initial_world capital maxpos tc frac)) in
  Forall (logged_by tc) (transaction_log (portfolio w)) /\
  Forall (fun t => transaction_type t <> "close"%string)
    (transaction_log (portfolio w)).
Proof.
  cbv zeta.
  assert (H : Forall (logged_by tc)
                (transaction_log (portfolio
                   (fst (run ops (initial_world capital maxpos tc frac))))) /\
              transaction_cost (portfolio
                (fst (run ops (initial_world capital maxpos tc frac)))) = tc).
  { apply (run_preserves
             (fun w => Forall (logged_by tc) (transaction_log (portfolio w)) /\
                       transaction_cost (portfolio w) = tc)).
    - intros o w [Hl Htc].
      destruct (call_logged o w) as (new & -> & Hnew & E).
      split; [|congruence]. apply Forall_app. split; [exact Hl|].
      now rewrite Htc in Hnew.
    - split; [constructor | reflexivity]. }
  destruct H as [Hl _]. split; [exact Hl|].
  eapply Forall_impl; [exact Hl|].
  intros t (_ & _ & [[[E|E] _]|[E _]]); rewrite E; discriminate.
Qed.

(** ** Transaction costs *)


(** ** The managed round trips across one call *)

Lemma In_dict_set_nodup {V} (d : list (nat * V)) k v k0 v0 :
  List.NoDup (dict_keys d) -> In (k0, v0) (dict_set k v d) ->
  (k0 = k /\ v0 = v) \/ (k0 <> k /\ In (k0, v0) d).
Proof.
  induction d as [|[k' w] d IH]; simpl; intros Hnd.
  - intros [E|[]]. injection E as <- <-. now left.
  - inversion Hnd as [|? ? Hk Hnd']; subst.
    destruct (Nat.eqb_spec k k') as [->|Hne]; simpl.
    + intros [E|H]; [injection E as <- <-; now left|].
      right. split; [|now right]. intros ->. apply Hk.
      eapply in_dict_keys, H.
    + intros [E|H]; [injection E as <- <-; right; split; [congruence | now left]|].
      destruct (IH Hnd' H) as [?|[? ?]]; [now left | right; split; [assumption | now right]].
Qed.

Lemma managed_open w k rt :
  In (k, rt) (open_roundtrips (portfolio w)) -> managed w rt.
Proof.
  intros H. left. unfold dict_values. change rt with (snd (k, rt)).
  now apply in_map.
Qed.

Lemma managed_cases w rt :
  managed w rt ->
  (exists k, In (k, rt) (open_roundtrips (portfolio w))) \/
  In rt (closed_roundtrips (portfolio w)).
Proof.
  intros [H|H]; [left | now right].
  unfold dict_values in H. apply in_map_iff in H as ([k r] & <- & H).
  now exists k.
Qed.

Lemma managed_id_bound w rt :
  ledger_invariant w -> managed w rt -> (rt_id rt < uuid_next w)%nat.
Proof.
  intros Hinv Hm. apply managed_cases in Hm as [[k H]|H].
  - destruct (inv_open w Hinv _ _ H) as (-> & _ & ?). assumption.
  - now destruct (inv_closed w Hinv _ H) as (_ & ? & _).
Qed.

Lemma managed_other_id w id rt r :
  ledger_invariant w ->
  dict_get id (open_roundtrips (portfolio w)) = Some rt ->
  managed w r -> r <> rt -> rt_id r <> id.
Proof.
  intros Hinv Hget Hm Hne. apply managed_cases in Hm as [[k H]|H].
  - destruct (inv_open w Hinv _ _ H) as (Hid & _ & _). rewrite Hid.
    intros ->. apply Hne.
    pose proof (In_dict_get _ _ _ (inv_nodup w Hinv) H) as E. congruence.
  - destruct (inv_closed w Hinv _ H) as (_ & _ & Hk). intros E. apply Hk.
    rewrite E. eapply in_dict_keys, dict_get_In, Hget.
Qed.

Lemma ledger_step_refl w : ledger_step w w.
Proof.
  exists []. rewrite app_nil_r. repeat split; [constructor | lia |].
  intros rt' Hm. left. split; [exact Hm | constructor].
Qed.

Lemma open_position_step tk d p s er md w :
  ledger_invariant w ->
  ledger_step w (fst (open_position tk d p s er md w)).
Proof.
  intros Hinv. pose proof (fresh_id_not_open w Hinv) as Hfresh.
  open_cases; try apply ledger_step_refl.
  cbn [fst]. eexists [_]. unfold managed.
  cbn [portfolio uuid_next with_log with_open with_cash open_roundtrips
       closed_roundtrips transaction_log].
  rewrite (dict_set_fresh _ _ _ Hfresh).
  split; [reflexivity|]. split; [repeat constructor; cbn; lia|].
  split; [lia|]. intros rt' Hm.
  unfold dict_values in Hm. rewrite map_app, in_app_iff in Hm. cbn [map In snd] in Hm.
  assert (Hold : managed w rt' ->
                 Forall (fun t => roundtrip_id t <> rt_id rt')
                   [{| txn_id := S (uuid_next w); roundtrip_id := uuid_next w;
                       txn_ticker := tk; txn_date := d;
                       transaction_type := "open";
                       shares := _round_shares (portfolio w) s; price := p;
                       net_amount := - c; reason := "signal" |}]).
  { intros Hm'. pose proof (managed_id_bound w rt' Hinv Hm').
    repeat constructor. cbn. lia. }
  destruct Hm as [[Hm|[<-|[]]]|Hm].
  - left. split; [now left | apply Hold; now left].
  - right.
    exists {| rt_id := uuid_next w; rt_ticker := tk; transactions := [];
              exit_rule := er;
              entry_signal_metadata :=
                match md with Some m => m | None => empty_metadata end;
              _total_cost := 0; _total_proceeds := 0 |}.
    eexists. split; [reflexivity|]. split; [reflexivity|].
    split; [reflexivity|]. right. repeat split.
  - left. split; [now right | apply Hold; now right].
Qed.

Lemma updated_roundtrip_step w id rt t k r :
  ledger_invariant w ->
  dict_get id (open_roundtrips (portfolio w)) = Some rt ->
  roundtrip_id t = id ->
  In (k, r) (dict_set id (add_transaction rt t) (open_roundtrips (portfolio w))) ->
  (managed w r /\ Forall (fun t => roundtrip_id t <> rt_id r) [t]) \/
  (exists rt0 t0,
     [t] = [t0] /\ roundtrip_id t0 = rt_id rt0 /\
     r = add_transaction rt0 t0 /\
     (managed w rt0 \/ blank_roundtrip (uuid_next w) rt0)).
Proof.
  intros Hinv Hget Ht Hin.
  pose proof (inv_open w Hinv _ _ (dict_get_In _ _ _ Hget)) as (Hid & _ & _).
  apply (In_dict_set_nodup _ _ _ _ _ (inv_nodup w Hinv)) in Hin
    as [[-> ->]|[Hne Hin]].
  - right. exists rt, t. repeat split; [congruence|].
    left. eapply managed_open, dict_get_In, Hget.
  - left. split; [eapply managed_open, Hin|].
    destruct (inv_open w Hinv _ _ Hin) as (Hk & _ & _).
    repeat constructor. congruence.
Qed.

Lemma closed_roundtrip_step w id rt t r :
  ledger_invariant w ->
  dict_get id (open_roundtrips (portfolio w)) = Some rt ->
  roundtrip_id t = id ->
  In r (closed_roundtrips (portfolio w)) ->
  managed w r /\ Forall (fun t => roundtrip_id t <> rt_id r) [t].
Proof.
  intros Hinv Hget Ht Hin. split; [now right|].
  destruct (inv_closed w Hinv _ Hin) as (_ & _ & Hk).
  repeat constructor. rewrite Ht. intros E. apply Hk. rewrite <- E.
  eapply in_dict_keys, dict_get_In, Hget.
Qed.

Lemma add_to_position_step id d p s r w :
  ledger_invariant w ->
  ledger_step w (fst (add_to_position id d p s r w)).
Proof.
  intros Hinv. add_cases; try apply ledger_step_refl.
  cbn [fst]. eexists [_]. unfold managed at 1.
  cbn [portfolio uuid_next with_log with_open with_cash open_roundtrips
       closed_roundtrips transaction_log].
  split; [reflexivity|].
  pose proof (inv_open w Hinv _ _ (dict_get_In _ _ _ Hget)) as (_ & _ & Hlt).
  split; [repeat constructor; cbn; lia|]. split; [lia|].
  intros rt' [Hm|Hm].
  - unfold dict_values in Hm. apply in_map_iff in Hm as ([k r0] & <- & Hm).
    eapply updated_roundtrip_step; eauto.
  - left. eapply closed_roundtrip_step; eauto.
Qed.

Lemma reduce_position_step id d p s r w :
  ledger_invariant w ->
  ledger_step w (fst (reduce_position id d p s r w)).
Proof.
  intros Hinv. reduce_cases; try apply ledger_step_refl;
    cbn [fst]; eexists [_]; unfold managed at 1;
    cbn [portfolio uuid_next with_log with_open with_cash with_closed
         open_roundtrips closed_roundtrips transaction_log];
    (split; [reflexivity|]);
    pose proof (inv_open w Hinv _ _ (dict_get_In _ _ _ Hget)) as (Hid & _ & Hlt);
    (split; [repeat constructor; cbn; lia|]); (split; [lia|]);
    intros rt' [Hm|Hm].
  - unfold dict_values in Hm. apply in_map_iff in Hm as ([k r0] & <- & Hm).
    apply In_dict_del in Hm. eapply updated_roundtrip_step; eauto.
  - apply in_app_iff in Hm as [Hm|[<-|[]]].
    + left. eapply closed_roundtrip_step; eauto.
    + right. eexists rt, _. repeat split; [cbn; congruence|].
      left. eapply managed_open, dict_get_In, Hget.
  - unfold dict_values in Hm. apply in_map_iff in Hm as ([k r0] & <- & Hm).
    eapply updated_roundtrip_step; eauto.
  - left. eapply closed_roundtrip_step; eauto.
Qed.

Lemma close_position_step id d p r w :
  ledger_invariant w ->
  ledger_step w (fst (close_position id d p r w)).
Proof.
  intros Hinv. rewrite close_position_run.
  destruct (dict_get _ _); [now apply reduce_position_step | apply ledger_step_refl].
Qed.

Lemma call_step o w : ledger_invariant w -> ledger_step w (fst (call o w)).
Proof.
  intros Hinv. destruct o as [tk d p s er md | id d p s r | id d p s r | id d p r];
    unfold call.
  - pose proof (open_position_step tk d p s er md w Hinv) as H.
    destruct (open_position _ _ _ _ _ _ w) as [w' [[?|]|?]]; exact H.
  - pose proof (add_to_position_step id d p s r w Hinv) as H.
    destruct (add_to_position _ _ _ _ _ w) as [w' [[|]|?]]; exact H.
  - pose proof (reduce_position_step id d p s r w Hinv) as H.
    destruct (reduce_position _ _ _ _ _ w) as [w' [?|?]]; exact H.
  - pose proof (close_position_step id d p r w Hinv) as H.
    destruct (close_position _ _ _ _ w) as [w' [?|?]]; exact H.
Qed.

(** ** The log and the round trips tell the same story *)

Lemma ledger_step_own w w' :
  ledger_invariant w -> ledger_step w w' ->
  Forall (fun t => (roundtrip_id t < uuid_next w)%nat)
    (transaction_log (portfolio w)) ->
  (forall rt, managed w rt -> transactions rt = own_transactions w rt) ->
  Forall (fun t => (roundtrip_id t < uuid_next w')%nat)
    (transaction_log (portfolio w')) /\
  (forall rt, managed w' rt -> transactions rt = own_transactions w' rt).
Proof.
  intros Hinv (new & Hlog & Hnew & Hle & Hm) Hbound Hown. split.
  - rewrite Hlog. apply Forall_app. split; [|exact Hnew].
    eapply Forall_impl; [exact Hbound|]. cbv beta. intros t Ht. lia.
  - intros rt' Hrt'. unfold own_transactions. rewrite Hlog, filter_app.
    destruct (Hm rt' Hrt') as [[Hold Hno]|(rt & t & -> & Hid & -> & Hrt)].
    + rewrite (Hown rt' Hold). unfold own_transactions.
      replace (filter _ new) with (@nil Transaction); [now rewrite app_nil_r|].
      symmetry. clear -Hno. induction Hno as [|t new Ht _ IH]; [reflexivity|].
      rewrite filter_cons_False by exact Ht. exact IH.
    + rewrite transactions_add, rt_id_add.
      rewrite (filter_cons_True _ t []) by exact Hid. rewrite filter_nil.
      f_equal. destruct Hrt as [Hold|(Hb & Htx & _)].
      * apply (Hown rt Hold).
      * rewrite Htx, Hb. symmetry. clear -Hbound.
        induction Hbound as [|t l Ht _ IH]; [reflexivity|].
        rewrite filter_cons_False by lia. exact IH.
Qed.

(** X5 (the log is the round trips' transactions).  After any ledger calls
    on a fresh portfolio, the transactions of every managed round trip, open
    or closed, are exactly the transactions of the flat log that carry its
    id, in the same order. *)
Theorem X5_log_matches_roundtrips (capital : Q) (maxpos : Z)
    (tc : TransactionCost) (frac : bool) (ops : list Op) :
  let w := fst (run ops (initial_world capital maxpos tc frac)) in
  forall rt, managed w rt -> transactions rt = own_transactions w rt.
Proof.
  cbv zeta.
  assert (H : (fun w =>
             ledger_invariant w /\
             Forall (fun t => (roundtrip_id t < uuid_next w)%nat)
               (transaction_log (portfolio w)) /\
             forall rt, managed w rt -> transactions rt = own_transactions w rt)
            (fst (run ops (initial_world capital maxpos tc frac)))).
  { apply run_preserves.
    - intros o w (Hinv & Hb & Hown). split; [now apply call_inv|].
      eapply ledger_step_own; eauto using call_step.
    - split; [apply initial_world_inv|]. split; [constructor|].
      intros rt [[]|[]]. }
  exact (proj2 (proj2 H)).
Qed.

Lemma X5_log_matches_roundtrips_witness :
  let w :=
    fst (run [OpOpen "A" 0 100 10 (TimeBasedExit 30) None;
              OpOpen "B" 0 50 10 (TimeBasedExit 30) None;
              OpAdd 0 1 90 5 "add"; OpClose 2 2 55 "exit"]
           (initial_world 10000 5 (mkTransactionCost 0 0) true)) in
  exists rt,
    managed w rt /\ rt_id rt = 0%nat /\
    map transaction_type (own_transactions w rt) = ["open"; "add"]%string /\
    transactions rt = own_transactions w rt.
Proof.
  cbv zeta.
  eassert (Hget : dict_get 0
             (open_roundtrips (portfolio (fst (run
                [OpOpen "A" 0 100 10 (TimeBasedExit 30) None;
                 OpOpen "B" 0 50 10 (TimeBasedExit 30) None;
                 OpAdd 0 1 90 5 "add"; OpClose 2 2 55 "exit"]
                (initial_world 10000 5 (mkTransactionCost 0 0) true))))) =
           Some _) by (vm_compute; reflexivity).
  eexists. split; [eapply managed_open, dict_get_In, Hget|].
  split; [vm_compute; reflexivity|]. split; [vm_compute; reflexivity|].
  apply (X5_log_matches_roundtrips 10000 5 (mkTransactionCost 0 0) true).
  eapply managed_open, dict_get_In, Hget.
Defined.

(** ** Cached totals *)

Lemma totals_agree_add rt t : totals_agree rt -> totals_agree (add_transaction rt t).
Proof.
  intros [Hc Hp]. unfold totals_agree. rewrite transactions_add.
  unfold add_transaction. destruct (is_entry t) eqn:He;
    cbn [_total_cost _total_proceeds].
  - rewrite (filter_snoc_true (fun t => is_entry t = true)) by exact He.
    rewrite (filter_snoc_false (fun t => is_entry t <> true)) by congruence.
    rewrite map_app. cbn [map]. rewrite py_sum_snoc. now rewrite Hc, Hp.
  - rewrite (filter_snoc_false (fun t => is_entry t = true)) by congruence.
    rewrite (filter_snoc_true (fun t => is_entry t <> true)) by congruence.
    rewrite map_app. cbn [map]. rewrite py_sum_snoc. now rewrite Hc, Hp.
Qed.

Lemma ledger_step_totals w w' :
  ledger_step w w' ->
  (forall rt, managed w rt -> totals_agree rt) ->
  forall rt, managed w' rt -> totals_agree rt.
Proof.
  intros (new & _ & _ & _ & Hm) Hold rt' Hrt'.
  destruct (Hm rt' Hrt') as [[H _]|(rt & t & _ & _ & -> & Hrt)]; [auto|].
  apply totals_agree_add. destruct Hrt as [H|(_ & Htx & Hc & Hp)]; [auto|].
  unfold totals_agree. now rewrite Htx, Hc, Hp.
Qed.

(** X6 (cached totals).  For every round trip a portfolio manages, the
    cached [_total_cost] is the sum of the absolute [net_amount] of its
    "open" and "add" transactions and the cached [_total_proceeds] is the sum
    of the [net_amount] of its other transactions, each summed in order; so
    [realized_pnl] is the second sum minus the first. *)
Theorem X6_cached_totals (capital : Q) (maxpos : Z) (tc : TransactionCost)
    (frac : bool) (ops : list Op) :
  let w := fst (run ops (initial_world capital maxpos tc frac)) in
  forall rt, managed w rt ->
    totals_agree rt /\
    realized_pnl rt =
      py_sum (map net_amount
                (filter (fun t => is_entry t <> true) (transactions rt)))
      - py_sum (map (fun t => Qabs (net_amount t))
                  (filter (fun t => is_entry t = true) (transactions rt))).
Proof.
  cbv zeta.
  assert (H : (fun w =>
             ledger_invariant w /\ forall rt, managed w rt -> totals_agree rt)
            (fst (run ops (initial_world capital maxpos tc frac)))).
  { apply run_preserves.
    - intros o w (Hinv & Hold). split; [now apply call_inv|].
      eapply ledger_step_totals; eauto using call_step.
    - split; [apply initial_world_inv|]. intros rt [[]|[]]. }
  intros rt Hm. pose proof (proj2 H rt Hm) as Ht. split; [exact Ht|].
  destruct Ht as [Hc Hp]. unfold realized_pnl. now rewrite Hc, Hp.
Qed.

Lemma X6_cached_totals_witness :
  let w :=
    fst (run [OpOpen "A" 0 100 10 (TimeBasedExit 30) None;
              OpAdd 0 1 90 5 "add"; OpClose 0 2 110 "exit"]
           (initial_world 10000 5 (mkTransactionCost 0 0) true)) in
  exists rt,
    managed w rt /\ totals_agree rt /\ Qred (realized_pnl rt) = 200.
Proof.
  cbv zeta. eexists.
  assert (Hm : managed
            (fst (run [OpOpen "A" 0 100 10 (TimeBasedExit 30) None;
                       OpAdd 0 1 90 5 "add"; OpClose 0 2 110 "exit"]
                    (initial_world 10000 5 (mkTransactionCost 0 0) true))) _)
    by (right; vm_compute; left; reflexivity).
  split; [exact Hm|]. split.
  - exact (proj1 (X6_cached_totals 10000 5 (mkTransactionCost 0 0) true _ _ Hm)).
  - vm_compute. reflexivity.
Defined.

(** ** [add_to_position] and partial sales *)






(** ** Exit rules one by one *)

Lemma min_date_spec d ts :
  (min_date d ts <= d)%Z /\
  Forall (fun t => (min_date d ts <= txn_date t)%Z) ts /\
  (min_date d ts = d \/ In (min_date d ts) (map txn_date ts)).
Proof.
  revert d. induction ts as [|t ts IH]; intros d; cbn [min_date].
  - split; [lia|]. split; [constructor | now left].
  - destruct (Z.ltb_spec (txn_date t) d) as [Hlt|Hge].
    + destruct (IH (txn_date t)) as (H1 & H2 & H3).
      split; [lia|]. split; [constructor; [lia | exact H2]|].
      right. cbn [map In]. destruct H3 as [->|H3]; auto.
    + destruct (IH d) as (H1 & H2 & H3).
      split; [lia|]. split; [constructor; [lia | exact H2]|].
      destruct H3 as [H3|H3]; [now left | right; now right].
Qed.

(** X9 ([TimeBasedExit]).  For a round trip with transactions the rule
    measures from the earliest transaction date (a date of the list that no
    date of the list precedes): it returns [(True, 1.0, "time_exit")] when
    [date - earliest >= holding_days] and [(False, 0.0, "")] otherwise, never
    touches the store, and once it fires on a date it fires on every later
    date.  A round trip without transactions has held for 0 days. *)
Theorem X9_time_based_exit (n : Z) (rt : RoundTrip) (date : Z) (px : Q)
    (store : gmap nat (gmap nat Q)) :
  (transactions rt = [] -> get_holding_days rt date = 0%Z) /\
  (transactions rt <> [] ->
   exists earliest,
     In earliest (map txn_date (transactions rt)) /\
     Forall (fun t => (earliest <= txn_date t)%Z) (transactions rt) /\
     get_holding_days rt date = (date - earliest)%Z /\
     should_exit (TimeBasedExit n) rt date px store =
       (store,
        if (n <=? date - earliest)%Z then (true, 1, "time_exit"%string)
        else (false, 0, ""%string))) /\
  (forall later px',
     (date <= later)%Z ->
     snd (should_exit (TimeBasedExit n) rt date px store)
       = (true, 1, "time_exit"%string) ->
     snd (should_exit (TimeBasedExit n) rt later px' store)
       = (true, 1, "time_exit"%string)).
Proof.
  split; [|split].
  - intros E. unfold get_holding_days. now rewrite E.
  - intros Hne. unfold get_holding_days. cbn [should_exit].
    unfold get_holding_days.
    destruct (transactions rt) as [|t ts]; [contradiction|].
    destruct (min_date_spec (txn_date t) ts) as (H1 & H2 & H3).
    exists (min_date (txn_date t) ts).
    split; [cbn [map In]; destruct H3; auto|].
    split; [constructor; assumption|]. split; [reflexivity|].
    rewrite Z.geb_leb. destruct (_ <=? _)%Z; reflexivity.
  - intros later px' Hle. cbn [should_exit]. unfold get_holding_days.
    destruct (transactions rt) as [|t ts].
    + destruct (0 >=? n)%Z; [reflexivity | discriminate].
    + rewrite !Z.geb_leb.
      destruct (Z.leb_spec n (date - min_date (txn_date t) ts)) as [H|H];
        [|discriminate].
      intros _. destruct (Z.leb_spec n (later - min_date (txn_date t) ts));
        [reflexivity | lia].
Qed.




(** ** Exit rules of any nesting *)

(** Induction over rules, through the lists of composite rules. *)
Lemma exit_rule_ind_nested (P : ExitRule -> Prop) :
  (forall n, P (TimeBasedExit n)) ->
  (forall s, P (StopLossExit s)) ->
  (forall ref pct, P (TrailingStopExit ref pct)) ->
  (forall tg portion, P (ProfitTargetExit tg portion)) ->
  (forall rules, Forall (fun rp => P (fst rp)) rules ->
                 P (CompositeExitRule rules)) ->
  forall r, P r.
Proof.
  intros Ht Hs Htr Hp Hc. fix IH 1. intros [n|s|ref pct|tg portion|rules].
  - apply Ht.
  - apply Hs.
  - apply Htr.
  - apply Hp.
  - apply Hc. induction rules as [|[r q] rules IHrules].
    + constructor.
    + constructor; [apply IH | exact IHrules].
Qed.

Lemma trailing_refs_composite rules :
  trailing_refs (CompositeExitRule rules) =
  flat_map (fun rp => trailing_refs (fst rp)) rules.
Proof.
  cbn [trailing_refs]. induction rules as [|[r q] rules IH]; [reflexivity|].
  cbn [flat_map fst]. now rewrite IH.
Qed.

Lemma composite_loop_shape rules rt d p s :
  Forall (fun rp => forall s0, well_shaped (snd (should_exit (fst rp) rt d p s0)))
    rules ->
  well_shaped (snd (composite_loop rules rt d p s)).
Proof.
  intros H. revert s. induction H as [|[r q] rules Hr _ IH]; intros s.
  - cbn. auto.
  - cbn [composite_loop]. specialize (Hr s). cbn [fst] in Hr.
    destruct (should_exit r rt d p s) as [s1 [[fires x] why]].
    destruct fires; [exact Hr | apply IH].
Qed.

(** X11 (shape of every exit decision).  Whatever the rule, nested composites
    included: when it declines it returns exactly [(False, 0.0, "")], and when
    it fires its reason is one of "time_exit", "stop_loss", "trailing_stop"
    and "profit_target", the reason of the sub-rule that fired. *)
Theorem X11_exit_decision_shape (r : ExitRule) (rt : RoundTrip) (date : Z)
    (px : Q) (store : gmap nat (gmap nat Q)) :
  match snd (should_exit r rt date px store) with
  | (false, portion, why) => portion = 0 /\ why = ""%string
  | (true, _, why) => In why exit_reasons
  end.
Proof.
  change (well_shaped (snd (should_exit r rt date px store))).
  revert store. induction r as [n|s|ref pct|tg portion|rules IH]
    using exit_rule_ind_nested; intros store.
  - cbn [should_exit]. destruct (_ >=? _)%Z; cbn; auto.
  - cbn [should_exit]. destruct (Qle_bool _ 0); [cbn; auto|].
    destruct (Qle_bool _ _); cbn; auto.
  - cbn [should_exit].
    pose proof (trailing_should_exit_spec pct rt px (default ∅ (store !! ref)))
      as Hs. cbv zeta in Hs. rewrite Hs.
    destruct (_ && _); cbn; auto.
  - cbn [should_exit]. destruct (Qle_bool _ 0); [cbn; auto|].
    destruct (Qgeb _ _); cbn; auto 6.
  - rewrite should_exit_composite. apply composite_loop_shape.
    eapply Forall_impl; [exact IH|]. cbv beta. auto.
Qed.

Lemma composite_loop_frame rules rt d p s k :
  Forall (fun rp => forall s0,
            ~ In k (trailing_refs (fst rp)) ->
            fst (should_exit (fst rp) rt d p s0) !! k = s0 !! k) rules ->
  ~ In k (flat_map (fun rp => trailing_refs (fst rp)) rules) ->
  fst (composite_loop rules rt d p s) !! k = s !! k.
Proof.
  intros H. revert s. induction H as [|[r q] rules Hr _ IH]; intros s Hk.
  - reflexivity.
  - cbn [composite_loop]. cbn [flat_map fst] in Hk, Hr.
    rewrite in_app_iff in Hk.
    assert (H1 : fst (should_exit r rt d p s) !! k = s !! k) by (apply Hr; tauto).
    destruct (should_exit r rt d p s) as [s1 [[fires x] why]]. cbn [fst] in H1.
    destruct fires; [exact H1|]. rewrite IH by tauto. exact H1.
Qed.

(** X12 (what an exit decision writes).  Evaluating a rule changes the stored
    peaks of no [TrailingStopExit] object other than those that occur in the
    rule; a rule without trailing stops leaves the whole store as it was. *)
Theorem X12_exit_rule_footprint (r : ExitRule) (rt : RoundTrip) (date : Z)
    (px : Q) (store : gmap nat (gmap nat Q)) :
  (forall k, ~ In k (trailing_refs r) ->
     fst (should_exit r rt date px store) !! k = store !! k) /\
  (trailing_refs r = [] -> fst (should_exit r rt date px store) = store).
Proof.
  assert (H : forall k, ~ In k (trailing_refs r) ->
                fst (should_exit r rt date px store) !! k = store !! k).
  { intros k. revert store.
    induction r as [n|s|ref pct|tg portion|rules IH]
      using exit_rule_ind_nested; intros store Hk.
    - cbn [should_exit]. destruct (_ >=? _)%Z; reflexivity.
    - cbn [should_exit]. destruct (Qle_bool _ 0); [reflexivity|].
      destruct (Qle_bool _ _); reflexivity.
    - cbn [should_exit]. destruct (trailing_should_exit _ _ _ _) as [peaks res].
      cbn [fst]. apply lookup_insert_ne. cbn in Hk. tauto.
    - cbn [should_exit]. destruct (Qle_bool _ 0); [reflexivity|].
      destruct (Qgeb _ _); reflexivity.
    - rewrite should_exit_composite. rewrite trailing_refs_composite in Hk.
      apply composite_loop_frame; [|exact Hk].
      eapply Forall_impl; [exact IH|]. cbv beta. auto. }
  split; [exact H|]. intros E. apply map_eq. intros k. apply H.
  rewrite E. intros [].
Qed.

(** ** Sizing against the cash *)









(** ** The day's prices *)

Lemma universe_prices_spec (day : string -> option Q) (l : list string)
    (m0 : gmap string Q) (seen : list string) :
  (forall t p, m0 !! t = Some p <-> In t seen /\ day t = Some p /\ 0 < p) ->
  forall t p,
    fold_left
      (fun current_prices ticker =>
         match day ticker with
         | Some price =>
             if Qgtb price 0 then <[ticker := price]> current_prices
             else current_prices
         | None => current_prices
         end) l m0 !! t = Some p <->
    In t (seen ++ l) /\ day t = Some p /\ 0 < p.
Proof.
  revert m0 seen. induction l as [|x l IH]; intros m0 seen Hm t p;
    cbn [fold_left].
  - rewrite app_nil_r. apply Hm.
  - change (seen ++ x :: l) with (seen ++ [x] ++ l). rewrite app_assoc.
    apply IH. clear t p. intros t p. rewrite in_app_iff. cbn [In].
    destruct (day x) as [px|] eqn:Hx.
    + destruct (Qgtb px 0) eqn:Hpos.
      * apply Qltb_lt in Hpos. destruct (decide (x = t)) as [->|Hne].
        -- rewrite lookup_insert_eq. rewrite Hx. split.
           ++ intros [= ->]. auto.
           ++ intros (_ & [= ->] & _). reflexivity.
        -- rewrite lookup_insert_ne by exact Hne. rewrite Hm. tauto.
      * apply Qltb_ge in Hpos. rewrite Hm. split; [tauto|].
        intros ([H|[->|[]]] & Hd & Hp); [tauto|].
        rewrite Hx in Hd. injection Hd as ->. lra.
    + rewrite Hm. split; [tauto|].
      intros ([H|[->|[]]] & Hd & Hp); [tauto | congruence].
Qed.

Lemma held_prices_spec (day : string -> option Q) (l : list RoundTrip)
    (m0 : gmap string Q) (seen : list string) :
  (forall t p, m0 !! t = Some p <-> In t seen /\ day t = Some p /\ 0 < p) ->
  forall t p,
    fold_left
      (fun current_prices roundtrip =>
         let ticker := rt_ticker roundtrip in
         match current_prices !! ticker, day ticker with
         | None, Some price =>
             if Qgtb price 0 then <[ticker := price]> current_prices
             else current_prices
         | _, _ => current_prices
         end) l m0 !! t = Some p <->
    In t (seen ++ map rt_ticker l) /\ day t = Some p /\ 0 < p.
Proof.
  revert m0 seen. induction l as [|x l IH]; intros m0 seen Hm t p;
    cbn [fold_left map].
  - rewrite app_nil_r. apply Hm.
  - change (seen ++ rt_ticker x :: map rt_ticker l)
      with (seen ++ [rt_ticker x] ++ map rt_ticker l).
    rewrite app_assoc. apply IH. clear t p. intros t p.
    rewrite in_app_iff. cbn [In]. cbv zeta.
    destruct (m0 !! rt_ticker x) as [q|] eqn:Hq.
    + apply Hm in Hq as (Hin & Hd & Hp). rewrite Hm. split; [tauto|].
      intros ([H|[<-|[]]] & Hd' & Hp'); [tauto|].
      split; [exact Hin | tauto].
    + destruct (day (rt_ticker x)) as [px|] eqn:Hx.
      * destruct (Qgtb px 0) eqn:Hpos.
        -- apply Qltb_lt in Hpos.
           destruct (decide (rt_ticker x = t)) as [<-|Hne].
           ++ rewrite lookup_insert_eq. rewrite Hx. split.
              ** intros [= ->]. auto.
              ** intros (_ & [= ->] & _). reflexivity.
           ++ rewrite lookup_insert_ne by exact Hne. rewrite Hm. tauto.
        -- apply Qltb_ge in Hpos. rewrite Hm. split; [tauto|].
           intros ([H|[<-|[]]] & Hd & Hp); [tauto|].
           rewrite Hx in Hd. injection Hd as ->. lra.
      * rewrite Hm. split; [tauto|].
        intros ([H|[<-|[]]] & Hd & Hp); [tauto | congruence].
Qed.

Lemma get_current_prices_spec (self : Backtester) (date : Z) (w : World) :
  exists prices,
    _get_current_prices self date w = (w, Ok prices) /\
    (price_data self date = None -> prices = ∅) /\
    (forall day, price_data self date = Some day ->
       forall t p,
         prices !! t = Some p <->
         In t (priced_tickers self (portfolio w)) /\ day t = Some p /\ 0 < p) /\
    (forall t p, prices !! t = Some p -> 0 < p).
Proof.
  unfold _get_current_prices, priced_tickers.
  destruct (price_data self date) as [day|] eqn:Hday.
  - eexists. split; [reflexivity|]. split; [discriminate|].
    assert (Hspec : forall t p,
              fold_left
                (fun current_prices roundtrip =>
                   let ticker := rt_ticker roundtrip in
                   match current_prices !! ticker, day ticker with
                   | None, Some price =>
                       if Qgtb price 0 then <[ticker := price]> current_prices
                       else current_prices
                   | _, _ => current_prices
                   end)
                (dict_values (open_roundtrips (portfolio w)))
                (fold_left
                   (fun current_prices ticker =>
                      match day ticker with
                      | Some price =>
                          if Qgtb price 0 then <[ticker := price]> current_prices
                          else current_prices
                      | None => current_prices
                      end)
                   (universe (strategy self)) (∅ : gmap string Q)) !! t = Some p <->
              In t (universe (strategy self)
                    ++ map rt_ticker (dict_values (open_roundtrips (portfolio w))))
              /\ day t = Some p /\ 0 < p).
    { apply held_prices_spec.
      apply (universe_prices_spec day (universe (strategy self)) ∅ []).
      intros t p. rewrite lookup_empty. cbn [In]. split; [discriminate | tauto]. }
    split.
    + intros day' [= <-]. exact Hspec.
    + intros t p Hp. apply Hspec in Hp. tauto.
  - exists ∅. split; [reflexivity|]. split; [reflexivity|].
    split; [discriminate|]. intros t p. rewrite lookup_empty. discriminate.
Qed.

(** X15 (the day's prices).  [_get_current_prices] changes nothing and never
    raises.  On a date outside the price index it returns the empty
    dictionary; on a date of the index it returns exactly the positive,
    non-missing prices of that day's row for the tickers of the universe and
    of the open round trips: every price it returns is positive, and a ticker
    whose price is missing, zero or negative has no entry. *)
Theorem X15_current_prices (self : Backtester) (date : Z) (w : World) :
  exists prices,
    _get_current_prices self date w = (w, Ok prices) /\
    (price_data self date = None -> prices = ∅) /\
    (forall day, price_data self date = Some day ->
       forall t p,
         prices !! t = Some p <->
         In t (priced_tickers self (portfolio w)) /\ day t = Some p /\ 0 < p) /\
    (forall t p, prices !! t = Some p -> 0 < p).
Proof. apply get_current_prices_spec. Qed.

(** ** The entry phase *)

Lemma calculate_shares_returns s px cash_now pv p tk :
  0 < px -> max_positions p <> 0%Z ->
  exists sh, calculate_shares s px cash_now pv (Some p) tk = Ok sh.
Proof.
  intros Hp Hm. unfold calculate_shares. apply Qle_bool_gt in Hp. rewrite Hp.
  apply Z.eqb_neq in Hm.
  destruct s as [a|pc|pc|n|n|b t m]; cbv zeta; try rewrite Hm;
    repeat match goal with
           | |- context [if ?c then _ else _] => destruct c
           end; eauto.
Qed.

Lemma open_position_returns tk d px qty er md w :
  0 < px ->
  exists w1 r,
    open_position tk d px qty er md w = (w1, Ok r) /\
    max_positions (portfolio w1) = max_positions (portfolio w).
Proof.
  intros Hp. open_cases; eauto.
  exfalso. unfold calculate_entry_cost in Hc. rewrite Hs in Hc.
  apply Qle_bool_gt in Hp. rewrite Hp in Hc. discriminate.
Qed.

Lemma entries_loop_returns self date prices signals w :
  max_positions (portfolio w) <> 0%Z -> positive_prices prices ->
  Forall (fun s => is_Some (prices !! sig_ticker s)) signals ->
  snd (entries_loop self date prices signals w) = Ok tt.
Proof.
  intros Hm Hpos Hsig. revert w Hm.
  induction Hsig as [|sg signals [cp Hcp] _ IH]; intros w Hm;
    cbn [entries_loop]; [reflexivity|].
  rewrite bind_run. cbn [get_self].
  destruct (negb _); [reflexivity|]. rewrite Hcp.
  rewrite bind_run.
  destruct (calculate_portfolio_value_pure date prices w) as (v & ->).
  rewrite bind_run. cbn [get_self]. rewrite bind_run. unfold lift.
  destruct (calculate_shares_returns (position_sizer (strategy self)) cp
              (cash (portfolio w)) v (portfolio w) (Some (sig_ticker sg))
              (Hpos _ _ Hcp) Hm) as (sh & ->).
  destruct (Qle_bool sh 0); [now apply IH|].
  rewrite bind_run.
  match goal with
  | |- context [open_position ?a ?b ?c ?d ?e ?f w] =>
      destruct (open_position_returns a b c d e f w (Hpos _ _ Hcp))
        as (w1 & r & -> & Hmax)
  end.
  apply IH. now rewrite Hmax.
Qed.

(** X16 (the entry phase returns).  When every price of the day is positive
    (as [_get_current_prices] delivers them) and the portfolio's
    [max_positions] is not zero (as [Backtester.__init__] demands),
    [_process_entries] never raises, whatever the signals, the sizer and the
    state of the ledger: a signal without a price is skipped, and neither the
    sizer nor [open_position] can fail on a positive price. *)
Theorem X16_entry_phase_returns (self : Backtester) (date : Z)
    (prices : gmap string Q) (signals : list Signal) (w : World) :
  max_positions (portfolio w) <> 0%Z -> positive_prices prices ->
  snd (_process_entries self date prices signals w) = Ok tt.
Proof.
  intros Hm Hpos. unfold _process_entries.
  apply entries_loop_returns; [assumption | assumption|].
  apply List.Forall_forall. intros sg Hin. apply List.filter_In in Hin as [_ H].
  destruct (prices !! sig_ticker sg); [eauto | discriminate].
Qed.

Lemma X16_entry_phase_returns_witness :
  let rule := EntryRule (fun _ _ _ => Some 1) (fun _ => true) "any" 1 in
  let bt :=
    {| strategy :=
         {| name := "s"; entry_rules := [rule]; exit_rules := TimeBasedExit 5;
            position_sizer := EqualWeight 10; universe := ["A"; "B"]%string |};
       price_data := fun _ => Some (fun t => Some 100) |} in
  let w := initial_world 10000 3 (mkTransactionCost 1 (1 # 1000)) false in
  let prices : gmap string Q := {[ "A"%string := 100 ]} in
  let signals := generate_signals (strategy bt) 0 (Some (portfolio w)) in
  max_positions (portfolio w) <> 0%Z /\ positive_prices prices /\
  snd (_process_entries bt 0 prices signals w) = Ok tt.
Proof.
  cbv zeta.
  assert (H1 : max_positions (portfolio
                 (initial_world 10000 3 (mkTransactionCost 1 (1 # 1000)) false))
               <> 0%Z) by (cbn; lia).
  assert (H2 : positive_prices ({[ "A"%string := 100 ]} : gmap string Q)).
  { intros t p Hp. apply lookup_singleton_Some in Hp as [_ <-]. reflexivity. }
  split; [exact H1|]. split; [exact H2|].
  exact (X16_entry_phase_returns _ 0%Z _ _ _ H1 H2).
Defined.

(** ** The day as a sequence of ledger calls *)















(** ** Closing what is left at the end *)







(** ** The whole run *)







(** X21 (an end date without data).  When the date given to
    [_close_all_positions] is not in the price index, the call returns
    without closing anything: the world is unchanged, however many round
    trips are open. *)
Theorem X21_close_all_without_data (self : Backtester) (final_date : Z)
    (w : World) :
  price_data self final_date = None ->
  _close_all_positions self final_date w = (w, Ok tt).
Proof.
  intros Hnone. unfold _close_all_positions, _get_current_prices.
  rewrite Hnone, bind_run. cbn [ret]. rewrite bind_run. cbn [get_self].
  induction (open_roundtrips (portfolio w)) as [|[k rt] items IH];
    cbn [close_all_loop]; [reflexivity|].
  now rewrite lookup_empty.
Qed.

Lemma X21_close_all_without_data_witness :
  let bt :=
    {| strategy :=
         {| name := "s";
            entry_rules := [EntryRule (fun _ _ _ => None) (fun _ => true) "none" 1];
            exit_rules := TimeBasedExit 5;
            position_sizer := FixedShares 10; universe := ["A"]%string |};
       price_data := fun d =>
         if (d <=? 5)%Z then Some (fun t => Some 100) else None |} in
  let w :=
    fst (run [OpOpen "A" 0 100 10 (TimeBasedExit 5) None]
           (initial_world 10000 5 (mkTransactionCost 0 0) true)) in
  price_data bt 6 = None /\ _close_all_positions bt 6 w = (w, Ok tt) /\
  length (open_roundtrips (portfolio w)) = 1%nat.
Proof.
  cbv zeta.
  match goal with
  | |- price_data ?bt 6 = None /\ _ =>
      assert (H : price_data bt 6 = None) by reflexivity;
      split; [exact H|]; split;
      [exact (X21_close_all_without_data bt 6 _ H) | vm_compute; reflexivity]
  end.
Defined.

(** ** The signals a strategy generates *)

Lemma all_pairs_pass_iff pairs tk d pf :
  all_pairs_pass pairs tk d pf = true <->
  Forall (fun cc => exists v, fst cc tk d pf = Some v /\ snd cc v = true) pairs.
Proof.
  induction pairs as [|[calc cond] pairs IH]; cbn [all_pairs_pass].
  - split; [constructor | reflexivity].
  - destruct (calc tk d pf) as [v|] eqn:Hv.
    + destruct (cond v) eqn:Hc; cbn [negb].
      * rewrite IH. split; [intros H; constructor; [exists v; auto | exact H]|].
        intros H. now apply Forall_cons in H as [_ H].
      * split; [discriminate|]. intros H. apply Forall_cons in H as [(v' & E & Hc') _].
        cbn [fst snd] in *. congruence.
    + split; [discriminate|]. intros H. apply Forall_cons in H as [(v' & E & _) _].
      cbn [fst] in E. congruence.
Qed.

Lemma should_enter_signal rule tk d pf sg :
  should_enter rule tk d pf = Some sg ->
  sig_ticker sg = tk /\ sig_date sg = d /\
  match rule with
  | EntryRule calc cond ty pr =>
      signal_type sg = ty /\ priority sg = pr /\
      exists v, calc tk d pf = Some v /\ cond v = true
  | CompositeEntryRule pairs ty pr =>
      signal_type sg = ty /\ priority sg = pr /\
      Forall (fun cc => exists v, fst cc tk d pf = Some v /\ snd cc v = true) pairs
  end.
Proof.
  destruct rule as [calc cond ty pr|pairs ty pr]; cbn [should_enter].
  - destruct (calc tk d pf) as [v|] eqn:Hv; [|discriminate].
    destruct (cond v) eqn:Hc; [|discriminate].
    intros [= <-]. cbn. eauto 10.
  - destruct (all_pairs_pass pairs tk d pf) eqn:Hp; [|discriminate].
    intros [= <-]. cbn. apply all_pairs_pass_iff in Hp. auto.
Qed.

Lemma discovery_order_in self d pf sg :
  In sg (discovery_order self d pf) <->
  exists tk rule,
    In tk (universe self) /\ In rule (entry_rules self) /\
    should_enter rule tk d pf = Some sg.
Proof.
  unfold discovery_order. rewrite in_flat_map. split.
  - intros (tk & Htk & Hin). apply list_elem_of_In, list_elem_of_omap in Hin
      as (rule & Hr & Hs). apply list_elem_of_In in Hr. eauto.
  - intros (tk & rule & Htk & Hr & Hs). exists tk. split; [exact Htk|].
    apply list_elem_of_In, list_elem_of_omap. exists rule.
    split; [now apply list_elem_of_In | exact Hs].
Qed.

(** X22 (what [generate_signals] returns).  A signal is returned exactly when
    some entry rule of the strategy returns it for some ticker of the
    universe on the current date.  So every returned signal names a ticker of
    the universe, carries the current date and the type and priority of a
    rule of the strategy whose calculation gave a value that its condition
    accepted (for a composite rule: all of whose pairs did); and a composite
    rule without pairs signals for every ticker. *)
Theorem X22_generated_signals (self : Strategy) (current_date : Z)
    (pf : option Portfolio) :
  (forall sg,
     In sg (generate_signals self current_date pf) <->
     exists tk rule,
       In tk (universe self) /\ In rule (entry_rules self) /\
       should_enter rule tk current_date pf = Some sg) /\
  (forall sg, In sg (generate_signals self current_date pf) ->
     In (sig_ticker sg) (universe self) /\ sig_date sg = current_date /\
     exists rule,
       In rule (entry_rules self) /\
       match rule with
       | EntryRule calc cond ty pr =>
           signal_type sg = ty /\ priority sg = pr /\
           exists v, calc (sig_ticker sg) current_date pf = Some v /\ cond v = true
       | CompositeEntryRule pairs ty pr =>
           signal_type sg = ty /\ priority sg = pr /\
           Forall (fun cc => exists v,
                     fst cc (sig_ticker sg) current_date pf = Some v /\
                     snd cc v = true) pairs
       end) /\
  (forall ty pr tk,
     In (CompositeEntryRule [] ty pr) (entry_rules self) ->
     In tk (universe self) ->
     In (mkSignal tk current_date ty empty_metadata pr)
       (generate_signals self current_date pf)).
Proof.
  assert (Hin : forall sg,
            In sg (generate_signals self current_date pf) <->
            In sg (discovery_order self current_date pf)).
  { intros sg. unfold generate_signals, sort_by_priority_desc.
    rewrite collect_signals_discovery.
    destruct (sort_by_priority_desc_spec
                (discovery_order self current_date pf) [] (SSorted_nil _))
      as (_ & Hp & _). cbn [app] in Hp.
    split; intros H.
    - eapply Permutation_in; [exact Hp | exact H].
    - eapply Permutation_in; [symmetry; exact Hp | exact H]. }
  split; [|split].
  - intros sg. rewrite Hin. apply discovery_order_in.
  - intros sg Hsg. apply Hin, discovery_order_in in Hsg
      as (tk & rule & Htk & Hr & Hs).
    destruct (should_enter_signal _ _ _ _ _ Hs) as (E1 & E2 & Hrule).
    rewrite E1. split; [exact Htk|]. split; [exact E2|]. exists rule. auto.
  - intros ty pr tk Hr Htk. apply Hin, discovery_order_in.
    exists tk, (CompositeEntryRule [] ty pr). auto.
Qed.

(** ** A run that completes *)



Lemma collect_exits_spec items date prices :
  forall acc w,
  exists w' l,
    collect_exits items date prices acc w = (w', Ok (acc ++ l)) /\
    portfolio w' = portfolio w /\ uuid_next w' = uuid_next w /\
    Forall (asked_of items date prices) l /\
    (List.NoDup (dict_keys items) -> List.NoDup (map exit_id l)).
Proof.
  induction items as [|[k rt] items IH]; intros acc w; cbn [collect_exits].
  - exists w, []. rewrite app_nil_r. repeat split; constructor.
  - assert (Hweak : forall l,
              Forall (asked_of items date prices) l ->
              Forall (asked_of ((k, rt) :: items) date prices) l).
    { intros l. apply List.Forall_impl. intros e (r & st & Hin & Hrest).
      exists r, st. split; [now right | exact Hrest]. }
    assert (Hnd : forall l,
              Forall (asked_of items date prices) l ->
              List.NoDup (dict_keys ((k, rt) :: items)) ->
              ~ In k (map exit_id l)).
    { intros l Hl Hno Hin. cbn [dict_keys map fst] in Hno.
      apply List.NoDup_cons_iff in Hno as [Hk _]. apply Hk.
      apply in_map_iff in Hin as (e & <- & He).
      rewrite List.Forall_forall in Hl.
      destruct (Hl e He) as (r & _ & Hr & _). eapply in_dict_keys, Hr. }
    assert (Htail : List.NoDup (dict_keys ((k, rt) :: items)) ->
                    List.NoDup (dict_keys items)).
    { cbn [dict_keys map fst]. intros Hno.
      now apply List.NoDup_cons_iff in Hno as [_ Hno]. }
    destruct (prices !! rt_ticker rt) as [cp|] eqn:Hcp.
    + rewrite bind_run. unfold call_should_exit.
      destruct (should_exit (exit_rule rt) rt date cp (peak_store w))
        as [s' [[fires x] rs]] eqn:Hse.
      destruct fires.
      * edestruct (IH (acc ++ [(k, x, cp, rs)])) as (w' & l & -> & Hp & Hu & Hl & Hno).
        exists w', ((k, x, cp, rs) :: l). rewrite <- app_assoc.
        split; [reflexivity|]. split; [exact Hp|]. split; [exact Hu|].
        split.
        -- constructor; [|now apply Hweak].
           exists rt, (peak_store w). cbn [exit_id exit_price exit_share
                                          exit_reason fst snd].
           split; [now left|]. split; [exact Hcp|]. now rewrite Hse.
        -- intros Hn. cbn [map exit_id fst]. constructor; [now apply Hnd | auto].
      * edestruct (IH acc) as (w' & l & -> & Hp & Hu & Hl & Hno).
        exists w', l. split; [reflexivity|]. split; [exact Hp|].
        split; [exact Hu|]. split; [now apply Hweak | auto].
    + destruct (IH acc w) as (w' & l & -> & Hp & Hu & Hl & Hno).
      exists w', l. split; [reflexivity|]. split; [exact Hp|].
      split; [exact Hu|]. split; [now apply Hweak | auto].
Qed.
















Lemma process_day_bad_portion self date w prices wc id portion px why rest :
  ledger_invariant w ->
  _get_current_prices self date w = (w, Ok prices) ->
  collect_exits (open_roundtrips (portfolio w)) date prices [] w
    = (wc, Ok ((id, portion, px, why) :: rest)) ->
  portion <= 0 ->
  _process_day self date w = (wc, Raise (ValueError "Shares must be positive")) /\
  portfolio wc = portfolio w.
Proof.
  intros Hinv Hp Hcol Hpor.
  destruct (collect_exits_spec (open_roundtrips (portfolio w)) date prices [] w)
    as (wc' & l & Hcol' & Hpf & _ & Hl & _).
  rewrite Hcol in Hcol'. cbn [app] in Hcol'. injection Hcol' as <- <-.
  split; [|exact Hpf].
  apply Forall_cons in Hl as [(rt & _ & Hin & _) _]. cbn [exit_id fst] in Hin.
  pose proof (In_dict_get _ _ _ (inv_nodup w Hinv) Hin) as Hget.
  destruct (inv_open w Hinv _ _ Hin) as (_ & Hrem & _).
  unfold _process_day. rewrite bind_run, Hp, bind_run.
  unfold _process_exits. rewrite bind_run. cbn [get_self].
  rewrite bind_run, Hcol. cbn [execute_exits].
  rewrite bind_run. cbn [get_self]. rewrite Hpf, Hget, bind_run.
  assert (Hfull : Qgeb portion (9999 # 10000) = false)
    by (apply Qle_bool_gt; lra).
  rewrite Hfull, reduce_position_run. cbv zeta. rewrite Hpf, Hget.
  assert (Hq : remaining_shares rt * portion <= 0).
  { assert (H1 : 0 <= remaining_shares rt * (- portion))
      by (apply Qmult_le_0_compat; lra).
    lra. }
  assert (Hle : Qgtb (remaining_shares rt * portion) (remaining_shares rt) = false)
    by (apply Qltb_ge; lra).
  rewrite Hle. unfold calculate_exit_value.
  apply Qle_bool_iff in Hq. rewrite Hq. reflexivity.
Qed.

(** X24 (a portion that is not positive stops the day).  When the first
    position that the exit phase selects comes with a portion [<= 0] (a slot
    of a [CompositeExitRule] built with such a portion), [_process_day]
    raises ValueError "Shares must be positive" out of [reduce_position]:
    no exit is executed, no entry is processed and no equity is recorded;
    the portfolio is as it was before the day. *)
Theorem X24_nonpositive_portion_raises (self : Backtester) (date : Z) (w : World)
    (prices : gmap string Q) (wc : World) (id : nat) (portion px : Q)
    (why : string) (rest : list (nat * Q * Q * string)) :
  ledger_invariant w ->
  _get_current_prices self date w = (w, Ok prices) ->
  collect_exits (open_roundtrips (portfolio w)) date prices [] w
    = (wc, Ok ((id, portion, px, why) :: rest)) ->
  portion <= 0 ->
  _process_day self date w = (wc, Raise (ValueError "Shares must be positive")) /\
  portfolio wc = portfolio w.
Proof. apply process_day_bad_portion. Qed.

Lemma X24_nonpositive_portion_raises_witness :
  let exits := CompositeExitRule [(TimeBasedExit 1, 0)] in
  let bt :=
    {| strategy :=
         {| name := "s";
            entry_rules := [EntryRule (fun _ _ _ => None) (fun _ => true) "none" 1];
            exit_rules := exits;
            position_sizer := FixedShares 10; universe := ["A"]%string |};
       price_data := fun _ =>
         Some (fun t => if String.eqb t "A" then Some 100 else None) |} in
  let w :=
    fst (run [OpOpen "A" 0 100 10 exits None]
           (initial_world 10000 5 (mkTransactionCost 0 0) true)) in
  ledger_invariant w /\
  _process_day bt 1 w = (w, Raise (ValueError "Shares must be positive")).
Proof.
  cbv zeta.
  set (w := fst (run [OpOpen "A" 0 100 10 (CompositeExitRule [(TimeBasedExit 1, 0)])
                        None]
                   (initial_world 10000 5 (mkTransactionCost 0 0) true))).
  assert (Hinv : ledger_invariant w) by apply run_inv, initial_world_inv.
  split; [exact Hinv|].
  match goal with
  | |- _process_day ?bt 1 w = _ =>
      eassert (Hp : _get_current_prices bt 1 w = (w, Ok _))
        by (vm_compute; reflexivity);
      lazymatch type of Hp with
      | _ = (_, Ok ?prices) =>
          assert (Hcol : collect_exits (open_roundtrips (portfolio w)) 1 prices [] w
                         = (w, Ok [(0%nat, 0, 100, "time_exit"%string)]))
            by (vm_compute; reflexivity);
          assert (Hpor : 0 <= 0) by apply Qle_refl;
          exact (proj1 (X24_nonpositive_portion_raises bt 1 w prices w 0%nat 0 100
                          "time_exit" [] Hinv Hp Hcol Hpor))
      end
  end.
Defined.

(** ** Total value across a trade *)













(** ** From the constructor to the end of the run *)



(** ** Configuration of sizers and conditions *)

Lemma of_result_loaded {A} (r : result A) (a : A) :
  of_result r = Loaded a -> r = Ok a.
Proof. destruct r; cbn; [now intros [= ->] | discriminate]. Qed.

Lemma with_number_loaded {A} v (init : Q -> result A) a :
  with_number v init = Loaded a -> exists q, init q = Ok a.
Proof.
  unfold with_number. destruct (as_number v) as [q|]; [|discriminate].
  intros H. exists q. now apply of_result_loaded.
Qed.

Lemma from_key_loaded {A} key data (new : pyval -> loaded A) a :
  from_key key data new = Loaded a ->
  exists v, py_get key data = Some v /\ new v = Loaded a.
Proof.
  unfold from_key. destruct (py_get key data) as [v|]; [eauto | discriminate].
Qed.

Lemma init_constructed s :
  (exists a, FixedDollarAmount_init a = Ok s) \/
  (exists p, PercentPortfolio_init p = Ok s) \/
  (exists p, PercentAvailableCash_init p = Ok s) \/
  (exists n, EqualWeight_init n = Ok s) \/
  (exists n, FixedShares_init n = Ok s) \/
  (exists b t m, RiskParity_init b t m = Ok s) ->
  sizer_constructed s.
Proof.
  intros [(a & H)|[(p & H)|[(p & H)|[(n & H)|[(n & H)|(b & t & m & H)]]]]];
    pose proof H as H0; revert H0;
    unfold FixedDollarAmount_init, PercentPortfolio_init,
      PercentAvailableCash_init, EqualWeight_init, FixedShares_init,
      RiskParity_init;
    repeat match goal with
           | |- context [if ?c then _ else _] => destruct c
           end; try discriminate; intros [= <-]; exact H.
Qed.

Lemma EqualWeight_new_loaded v s :
  EqualWeight_new v = Loaded s -> exists n, EqualWeight_init n = Ok s.
Proof.
  destruct v as [|b|z|q|str|items|entries]; cbn [EqualWeight_new];
    try discriminate.
  - intros H. eexists. eapply of_result_loaded, H.
  - intros H. eexists. eapply of_result_loaded, H.
  - destruct (Qle_bool q 0); discriminate.
Qed.

Lemma RiskParity_new_loaded b t m s :
  RiskParity_new b t m = Loaded s -> exists b' t' m', RiskParity_init b' t' m' = Ok s.
Proof.
  unfold RiskParity_new.
  destruct (as_number b) as [b'|]; [|discriminate].
  destruct (Qle_bool b' 0) eqn:Hb; [discriminate|].
  destruct (as_number t) as [t'|]; [|discriminate].
  destruct (Qle_bool t' 0) eqn:Ht; [discriminate|].
  destruct (as_number m) as [m'|]; [|discriminate].
  destruct (Qltb m' 1) eqn:Hm; [discriminate|].
  intros [= <-]. exists b', t', m'. unfold RiskParity_init.
  now rewrite Hb, Ht, Hm.
Qed.

Lemma create_position_sizer_loaded data s :
  create_position_sizer data = Loaded s ->
  sizer_constructed s /\
  exists ty, py_get "type" data = Some (PyStr ty) /\ In ty sizer_types.
Proof.
  unfold create_position_sizer, unknown_sizer.
  destruct (py_get "type" data) as [[| | | |ty| |]|]; try discriminate.
  repeat match goal with
         | |- context [String.eqb ty ?x] =>
             destruct (String.eqb_spec ty x) as [->|_]
         end; try discriminate;
    (intros H; split;
     [|eexists; split; [reflexivity | cbn; tauto]]);
    apply init_constructed.
  - apply from_key_loaded in H as (v & _ & H).
    apply with_number_loaded in H. tauto.
  - apply from_key_loaded in H as (v & _ & H).
    apply with_number_loaded in H. tauto.
  - apply from_key_loaded in H as (v & _ & H).
    apply with_number_loaded in H. tauto.
  - apply EqualWeight_new_loaded in H. tauto.
  - apply from_key_loaded in H as (v & _ & H).
    apply with_number_loaded in H. tauto.
  - apply from_key_loaded in H as (v & _ & H).
    apply RiskParity_new_loaded in H. tauto.
Qed.

Lemma create_position_sizer_round_trip s :
  sizer_constructed s -> create_position_sizer (PositionSizer_to_dict s) = Loaded s.
Proof.
  destruct s as [a|p|p|n|n|b t m]; cbn [sizer_constructed]; intros Hc.
  - change (create_position_sizer (PositionSizer_to_dict (FixedDollarAmount a)))
      with (of_result (FixedDollarAmount_init a)). now rewrite Hc.
  - change (create_position_sizer (PositionSizer_to_dict (PercentPortfolio p)))
      with (of_result (PercentPortfolio_init p)). now rewrite Hc.
  - change (create_position_sizer (PositionSizer_to_dict (PercentAvailableCash p)))
      with (of_result (PercentAvailableCash_init p)). now rewrite Hc.
  - change (create_position_sizer (PositionSizer_to_dict (EqualWeight n)))
      with (of_result (EqualWeight_init n)). now rewrite Hc.
  - change (create_position_sizer (PositionSizer_to_dict (FixedShares n)))
      with (of_result (FixedShares_init n)). now rewrite Hc.
  - change (create_position_sizer (PositionSizer_to_dict (RiskParity b t m)))
      with (RiskParity_new (PyFloat b) (PyFloat t) (PyFloat m)).
    unfold RiskParity_init in Hc. unfold RiskParity_new. cbn [as_number].
    destruct (Qle_bool b 0); [discriminate|].
    destruct (Qle_bool t 0); [discriminate|].
    destruct (Qltb m 1); [discriminate | reflexivity].
Qed.

(** X27 (sizer configuration).  [create_position_sizer] gives back every
    sizer from its own [to_dict], provided the sizer is one its constructor
    accepts.  Whatever the dictionary, a sizer that [create_position_sizer]
    returns is one its constructor accepts, and its type is one of the six
    names; a dictionary whose 'type' is none of them raises ValueError
    "Unknown position sizer type".  An 'EqualWeight' without
    'default_max_positions' gets 10, and a 'RiskParity' without
    'target_volatility' and 'max_adjustment' gets 0.20 and 2.0. *)
Theorem X27_sizer_configuration :
  (forall s, sizer_constructed s ->
     create_position_sizer (PositionSizer_to_dict s) = Loaded s) /\
  (forall data s, create_position_sizer data = Loaded s ->
     sizer_constructed s /\
     exists ty, py_get "type" data = Some (PyStr ty) /\ In ty sizer_types) /\
  (forall data,
     (forall ty, py_get "type" data = Some (PyStr ty) -> ~ In ty sizer_types) ->
     create_position_sizer data
       = Fails (Exn (ValueError "Unknown position sizer type"))) /\
  create_position_sizer [("type", PyStr "EqualWeight")]%string
    = Loaded (EqualWeight 10) /\
  (forall b, 0 < b ->
     create_position_sizer
       [("type", PyStr "RiskParity"); ("base_dollar_amount", PyFloat b)]%string
     = Loaded (RiskParity b (20 # 100) 2)).
Proof.
  split; [exact create_position_sizer_round_trip|].
  split; [exact create_position_sizer_loaded|].
  split; [|split].
  - intros data Hty. unfold create_position_sizer, unknown_sizer.
    destruct (py_get "type" data) as [[| | | |ty| |]|]; try reflexivity.
    specialize (Hty ty eq_refl). cbn [sizer_types In] in Hty.
    repeat match goal with
           | |- context [String.eqb ty ?x] =>
               destruct (String.eqb_spec ty x) as [->|_]
           end; try reflexivity; exfalso; apply Hty; tauto.
  - reflexivity.
  - intros b Hb.
    change (RiskParity_new (PyFloat b) (PyFloat (20 # 100)) (PyFloat 2)
            = Loaded (RiskParity b (20 # 100) 2)).
    unfold RiskParity_new. cbn [as_number].
    apply Qle_bool_gt in Hb. now rewrite Hb.
Qed.

Lemma check_between lo hi v :
  check (Between lo hi) (Some v) = true <-> lo <= v /\ v <= hi.
Proof.
  cbn [check]. rewrite andb_true_iff, !Qle_bool_iff. reflexivity.
Qed.

(** X28 (conditions).  A missing value satisfies no condition.  [GreaterThan]
    and [LessThan] are strict, so a value equal to the threshold satisfies
    neither; [Between] includes both ends, and a [Between] whose maximum is
    below its minimum is satisfied by nothing, so that an entry rule with it
    never signals.  The constructors check nothing: [create_condition] gives
    back every condition from its [to_dict]; a dictionary whose 'type' is not
    one of the three names raises ValueError "Unknown condition type". *)
Theorem X28_conditions :
  (forall c, check c None = false) /\
  (forall t v, check (GreaterThan t) (Some v) = true <-> t < v) /\
  (forall t v, check (LessThan t) (Some v) = true <-> v < t) /\
  (forall lo hi v, check (Between lo hi) (Some v) = true <-> lo <= v /\ v <= hi) /\
  (forall lo hi value, hi < lo -> check (Between lo hi) value = false) /\
  (forall lo hi calc ty pr tk d pf, hi < lo ->
     should_enter (EntryRule calc (as_condition (Between lo hi)) ty pr) tk d pf
     = None) /\
  (forall c, create_condition (Condition_to_dict c) = Loaded c) /\
  (forall data c, create_condition data = Loaded c ->
     exists ty, py_get "type" data = Some (PyStr ty) /\
                In ty ["GreaterThan"; "LessThan"; "Between"]%string) /\
  (forall data,
     (forall ty, py_get "type" data = Some (PyStr ty) ->
                 ~ In ty ["GreaterThan"; "LessThan"; "Between"]%string) ->
     create_condition data = Fails (Exn (ValueError "Unknown condition type"))).
Proof.
  assert (Hnever : forall lo hi value, hi < lo -> check (Between lo hi) value = false).
  { intros lo hi [v|] Hlt; [|reflexivity].
    destruct (check (Between lo hi) (Some v)) eqn:E; [|reflexivity].
    apply check_between in E. lra. }
  split; [intros []; reflexivity|].
  split; [intros t v; cbn [check]; apply Qltb_lt|].
  split; [intros t v; cbn [check]; apply Qltb_lt|].
  split; [exact check_between|].
  split; [exact Hnever|].
  split; [|split; [|split]].
  - intros lo hi calc ty pr tk d pf Hlt. cbn [should_enter].
    destruct (calc tk d pf) as [v|]; [|reflexivity].
    unfold as_condition. now rewrite Hnever.
  - intros [t|t|lo hi]; reflexivity.
  - intros data c. unfold create_condition, unknown_condition.
    destruct (py_get "type" data) as [[| | | |ty| |]|]; try discriminate.
    repeat match goal with
           | |- context [String.eqb ty ?x] =>
               destruct (String.eqb_spec ty x) as [->|_]
           end; try discriminate;
      intros _; eexists; (split; [reflexivity | cbn; tauto]).
  - intros data Hty. unfold create_condition, unknown_condition.
    destruct (py_get "type" data) as [[| | | |ty| |]|]; try reflexivity.
    specialize (Hty ty eq_refl). cbn [In] in Hty.
    repeat match goal with
           | |- context [String.eqb ty ?x] =>
               destruct (String.eqb_spec ty x) as [->|_]
           end; try reflexivity; exfalso; apply Hty; tauto.
Qed.

(** ** Configuration of exit rules *)

Lemma py_find_get {A} key (missing : A) found d :
  py_find key missing found d =
  match py_get key d with
  | Some v => found v
  | None => missing
  end.
Proof.
  induction d as [|[k v] d IH]; cbn [py_find py_get]; [reflexivity|].
  destruct (String.eqb key k); [reflexivity | exact IH].
Qed.

Lemma load_each_ext {A} (f g : pyval -> Loader A) items acc store :
  (forall x s, f x s = g x s) ->
  load_each f items acc store = load_each g items acc store.
Proof.
  intros Hfg. revert acc store.
  induction items as [|x items IH]; intros acc store; cbn [load_each];
    [reflexivity|].
  unfold load_bind. rewrite Hfg.
  destruct (g x store) as [s1 [a| |]]; [apply IH | reflexivity | reflexivity].
Qed.

Lemma create_exit_rule_composite d store :
  py_get "type" d = Some (PyStr "CompositeExitRule") ->
  create_exit_rule (PyDict d) store = CompositeExitRule_from_dict d store.
Proof.
  intros Hty. cbn [create_exit_rule]. rewrite Hty.
  change (String.eqb "CompositeExitRule" "TimeBasedExit") with false.
  change (String.eqb "CompositeExitRule" "StopLossExit") with false.
  change (String.eqb "CompositeExitRule" "TrailingStopExit") with false.
  change (String.eqb "CompositeExitRule" "ProfitTargetExit") with false.
  change (String.eqb "CompositeExitRule" "CompositeExitRule") with true.
  cbv iota. rewrite py_find_get. unfold CompositeExitRule_from_dict.
  destruct (py_get "rules" d) as [[| | | |s|items|es]|]; try reflexivity.
  unfold load_bind.
  rewrite (load_each_ext _ load_slot); [reflexivity|].
  intros [| | | | | |rd] st; try reflexivity.
  unfold load_slot. now rewrite py_find_get.
Qed.

Lemma allocated_nil store : allocated [] store store.
Proof. split; [constructor|]. split; [intros k []|reflexivity]. Qed.

Lemma allocated_fresh (store : gmap nat (gmap nat Q)) :
  allocated [fresh (dom store)] store (<[fresh (dom store) := ∅]> store).
Proof.
  pose proof (is_fresh (dom store)) as Hf. apply not_elem_of_dom in Hf.
  split; [repeat constructor; intros []|]. split.
  - intros k [<-|[]]. split; [exact Hf | apply lookup_insert_eq].
  - intros k Hk. apply lookup_insert_ne. intros E. apply Hk. now left.
Qed.

Lemma allocated_app refs1 refs2 s s1 s2 :
  allocated refs1 s s1 -> allocated refs2 s1 s2 ->
  allocated (refs1 ++ refs2) s s2.
Proof.
  intros (Hn1 & Hin1 & Hout1) (Hn2 & Hin2 & Hout2).
  assert (Hdisj : forall k, In k refs1 -> In k refs2 -> False).
  { intros k H1 H2. destruct (Hin1 k H1) as [_ E1].
    destruct (Hin2 k H2) as [E2 _]. congruence. }
  split; [|split].
  - apply List.NoDup_app; [exact Hn1 | exact Hn2|].
    intros k H1 H2. exact (Hdisj k H1 H2).
  - intros k Hk. apply in_app_or in Hk as [H1|H2].
    + destruct (Hin1 k H1) as [E0 E1]. split; [exact E0|].
      rewrite Hout2; [exact E1|]. intros H2. exact (Hdisj k H1 H2).
    + destruct (Hin2 k H2) as [E1 E2]. split; [|exact E2].
      rewrite <- Hout1; [exact E1|]. intros H1. exact (Hdisj k H1 H2).
  - intros k Hk. rewrite Hout2, Hout1; [reflexivity| |];
      intros H; apply Hk, in_or_app; tauto.
Qed.

Lemma ExitRule_to_dict_composite rules :
  ExitRule_to_dict (CompositeExitRule rules) =
  PyDict [("type", PyStr "CompositeExitRule");
          ("rules", PyList (map slot_to_dict rules))]%string.
Proof. reflexivity. Qed.

Lemma rule_constructed_composite rules :
  rule_constructed (CompositeExitRule rules) <->
  rules <> [] /\ Forall (fun rp => rule_constructed (fst rp)) rules.
Proof.
  cbn [rule_constructed].
  assert (H : forall l : list (ExitRule * Q),
            (fix all (rules : list (ExitRule * Q)) : Prop :=
               match rules with
               | [] => True
               | (rule, _) :: rest => rule_constructed rule /\ all rest
               end) l <->
            Forall (fun rp => rule_constructed (fst rp)) l).
  { induction l as [|[r q] l IH].
    - split; [constructor | trivial].
    - rewrite IH, Forall_cons. reflexivity. }
  now rewrite H.
Qed.

Lemma load_slots_round_trip rules :
  Forall (fun rp => reloads (fst rp)) rules ->
  forall acc store,
  exists rules' store',
    load_each load_slot (map slot_to_dict rules) acc store
      = (store', Loaded (acc ++ rules')) /\
    map slot_to_dict rules' = map slot_to_dict rules /\
    allocated (slot_refs rules') store store' /\
    (slot_refs rules = [] -> rules' = rules).
Proof.
  induction 1 as [|[r q] rules Hr _ IH]; intros acc store;
    cbn [map load_each].
  - exists [], store. rewrite app_nil_r.
    split; [reflexivity|]. split; [reflexivity|].
    split; [apply allocated_nil | reflexivity].
  - cbn [fst] in Hr. destruct (Hr store) as (r1 & s1 & Hload & Hdict & Hal & Hsame).
    change (load_slot (slot_to_dict (r, q)))
      with (load_bind (create_exit_rule (ExitRule_to_dict r))
              (fun rule => load_ret (Loaded (rule, q)))).
    unfold load_bind at 1 2. rewrite Hload. cbn [load_ret].
    destruct (IH (acc ++ [(r1, q)]) s1) as (rules1 & s2 & -> & Hmap & Hal2 & Hsame2).
    exists ((r1, q) :: rules1), s2. rewrite <- app_assoc.
    split; [reflexivity|]. split; [|split].
    + cbn [map slot_to_dict]. now rewrite Hdict, Hmap.
    + cbn [slot_refs flat_map fst]. eapply allocated_app; eassumption.
    + cbn [slot_refs flat_map fst]. intros E.
      apply app_eq_nil in E as [E1 E2]. now rewrite Hsame, Hsame2.
Qed.

Lemma exit_rule_round_trip r : rule_constructed r -> reloads r.
Proof.
  induction r as [n|s|ref pct|tg pt|rules IH] using exit_rule_ind_nested;
    intros Hc store.
  - cbn [rule_constructed] in Hc. exists (TimeBasedExit n), store.
    change (create_exit_rule (ExitRule_to_dict (TimeBasedExit n)) store)
      with (store, of_result (TimeBasedExit_init n)).
    unfold TimeBasedExit_init.
    assert (E : (n <=? 0)%Z = false) by lia. rewrite E.
    split; [reflexivity|]. split; [reflexivity|].
    split; [apply allocated_nil | reflexivity].
  - cbn [rule_constructed] in Hc. exists (StopLossExit s), store.
    change (create_exit_rule (ExitRule_to_dict (StopLossExit s)) store)
      with (store, of_result (StopLossExit_init s)).
    unfold StopLossExit_init. apply Qle_bool_gt in Hc. rewrite Hc.
    split; [reflexivity|]. split; [reflexivity|].
    split; [apply allocated_nil | reflexivity].
  - cbn [rule_constructed] in Hc.
    change (create_exit_rule (ExitRule_to_dict (TrailingStopExit ref pct)) store)
      with (TrailingStopExit_new (PyFloat pct) store).
    unfold TrailingStopExit_new. cbn [as_number].
    apply Qle_bool_gt in Hc. rewrite Hc. cbv zeta.
    eexists _, _. split; [reflexivity|]. split; [reflexivity|].
    split; [apply allocated_fresh | discriminate].
  - cbn [rule_constructed] in Hc. destruct Hc as (Ht & Hp0 & Hp1).
    exists (ProfitTargetExit tg pt), store.
    change (create_exit_rule (ExitRule_to_dict (ProfitTargetExit tg pt)) store)
      with (store, ProfitTargetExit_new (PyFloat tg) (PyFloat pt)).
    unfold ProfitTargetExit_new. cbn [as_number].
    apply Qle_bool_gt in Ht. rewrite Ht.
    apply Qltb_lt in Hp0. apply Qle_bool_iff in Hp1. rewrite Hp0, Hp1.
    cbn [andb negb].
    split; [reflexivity|]. split; [reflexivity|].
    split; [apply allocated_nil | reflexivity].
  - apply rule_constructed_composite in Hc as [Hne Hall].
    assert (Hre : Forall (fun rp => reloads (fst rp)) rules).
    { clear Hne. induction IH as [|rp rules Hrp _ IHf]; [constructor|].
      apply Forall_cons in Hall as [H1 H2]. constructor; auto. }
    destruct (load_slots_round_trip rules Hre [] store)
      as (rules' & store' & Hload & Hmap & Hal & Hsame).
    rewrite ExitRule_to_dict_composite, create_exit_rule_composite
      by reflexivity.
    change (CompositeExitRule_from_dict _ store)
      with (load_bind (load_each load_slot (map slot_to_dict rules) [])
              (fun rules =>
                 load_ret (of_result (CompositeExitRule_init rules))) store).
    unfold load_bind. rewrite Hload. cbn [app load_ret].
    assert (Hne' : rules' <> []).
    { intros ->. destruct rules; [contradiction | discriminate]. }
    exists (CompositeExitRule rules'), store'.
    split; [destruct rules'; [contradiction | reflexivity]|].
    split; [now rewrite !ExitRule_to_dict_composite, Hmap|].
    rewrite !trailing_refs_composite. split; [exact Hal|].
    intros E. now rewrite (Hsame E).
Qed.

Lemma allocated_none store store' :
  allocated [] store store' -> store' = store.
Proof.
  intros (_ & _ & Hout). apply map_eq. intros k. apply Hout. intros [].
Qed.

Lemma create_exit_rule_unknown d store :
  (forall ty, py_get "type" d = Some (PyStr ty) -> ~ In ty exit_rule_types) ->
  create_exit_rule (PyDict d) store
    = (store, Fails (Exn (ValueError "Unknown exit rule type"))).
Proof.
  intros Hty. cbn [create_exit_rule].
  destruct (py_get "type" d) as [[| | | |ty| |]|]; try reflexivity.
  specialize (Hty ty eq_refl). cbn [exit_rule_types In] in Hty.
  repeat match goal with
         | |- context [String.eqb ty ?x] =>
             destruct (String.eqb_spec ty x) as [->|_]
         end; try reflexivity; exfalso; apply Hty; tauto.
Qed.

(** X29 (exit rule configuration).  For a rule that the constructors accept,
    sub-rules included, [create_exit_rule] loads the rule's own [to_dict]
    into a rule with the same configuration (its [to_dict] is the same
    dictionary).  Every [TrailingStopExit] of the loaded rule is a new
    object with an empty [_peak_prices], different from every object that
    existed and from the other trailing stops of the loaded rule, also where
    the original used one object in two slots: recorded peaks and sharing
    are not part of the configuration.  A rule without trailing stops comes
    back as it was and nothing is created.  A value that is not a
    dictionary raises [AttributeError], a 'type' that is none of the five
    names raises ValueError "Unknown exit rule type", and a composite with
    an empty list of rules raises the [ValueError] of its constructor. *)
Theorem X29_exit_rule_configuration :
  (forall r store, rule_constructed r ->
     exists r' store',
       create_exit_rule (ExitRule_to_dict r) store = (store', Loaded r') /\
       ExitRule_to_dict r' = ExitRule_to_dict r /\
       List.NoDup (trailing_refs r') /\
       (forall k, In k (trailing_refs r') ->
                  store !! k = None /\ store' !! k = Some ∅) /\
       (forall k, ~ In k (trailing_refs r') -> store' !! k = store !! k) /\
       (trailing_refs r = [] -> r' = r /\ store' = store)) /\
  (forall data store, (forall d, data <> PyDict d) ->
     create_exit_rule data store = (store, Fails AttributeError)) /\
  (forall d store,
     (forall ty, py_get "type" d = Some (PyStr ty) -> ~ In ty exit_rule_types) ->
     create_exit_rule (PyDict d) store
       = (store, Fails (Exn (ValueError "Unknown exit rule type")))) /\
  (forall store,
     create_exit_rule
       (PyDict [("type", PyStr "CompositeExitRule"); ("rules", PyList [])]%string)
       store
     = (store,
        Fails (Exn (ValueError "CompositeExitRule requires at least one rule")))).
Proof.
  split; [|split; [|split]].
  - intros r store Hc.
    destruct (exit_rule_round_trip r Hc store)
      as (r' & store' & Hload & Hdict & Hal & Hsame).
    exists r', store'. split; [exact Hload|]. split; [exact Hdict|].
    pose proof Hal as (Hnd & Hin & Hout).
    split; [exact Hnd|]. split; [exact Hin|]. split; [exact Hout|].
    intros E. specialize (Hsame E). subst r'. split; [reflexivity|].
    rewrite E in Hal. now apply allocated_none.
  - intros data store Hnd.
    destruct data as [| | | | | |d]; try reflexivity.
    now destruct (Hnd d).
  - exact create_exit_rule_unknown.
  - reflexivity.
Qed.

(** ** Cash, capital and realized P&L *)












